(** * Devocional app: offline cache, daily memoisation and audio pipeline

    A shallow embedding of the two source files of the repository:

    - [src/index.tsx]: the audio helpers [base64ToUint8Array] and
      [decodeAudioData], and the handlers [stopAudio], [handlePlayAudio]
      and [generateDevotional] of the [App] component, followed by its
      mount effect and its handlers for the diary, the notifications,
      the install banner and sharing;
    - the service worker (install, fetch and activate listeners).

    Asynchronous handlers are modelled as state transformers that run to
    completion: one call is one atomic step.  Every value that comes from
    outside the program (the answer of a generator, the clock, the
    network, whether the browser accepts a write to [localStorage]) is
    an explicit argument of the handler that consumes it.
    Calls into the browser are modelled after the ECMAScript, HTML, Web
    Audio and Service Worker standards; each such definition says so. *)

From Stdlib Require Import ZArith QArith Qround String Ascii List Lia.
From Stdlib.Strings Require Import Byte.
From stdpp Require Import base option list gmap strings pretty.

Open Scope string_scope.

(** ** JavaScript completions *)

Module Js.

(** The exceptions the modelled code can meet. *)
Inductive exn : Type :=
| RangeError
| NotSupportedError
| InvalidCharacterError
| InvalidStateError
| SyntaxError
| GeneratorError
| NetworkError
| QuotaExceededError.

(** Outcome of evaluating a piece of code: a value or a thrown exception. *)
Inductive completion (A : Type) : Type :=
| Normal (a : A)
| Throw (e : exn).
Arguments Normal {A} a.
Arguments Throw {A} e.

Definition bind {A B} (c : completion A) (k : A -> completion B) : completion B :=
  match c with
  | Normal a => k a
  | Throw e => Throw e
  end.

(** A JavaScript number as far as the audio code needs it: a finite value
    (kept exact, as a rational) or a non-finite one. *)
Inductive number : Type :=
| Finite (q : Q)
| NaN.

(** [a / b] on two non-negative integers; [None] stands for the
    non-finite results ([Infinity], [NaN]) of a division by zero. *)
Definition div (a b : nat) : option Q :=
  match b with
  | O => None
  | S _ => Some (Z.of_nat a # Pos.of_nat b)
  end.

End Js.

Import Js.

Notation "'let!' x ':=' c 'in' k" := (Js.bind c (fun x => k))
  (at level 10, x name, c at level 100, k at level 200).

(** ** ByteCodec: [base64ToUint8Array] and [decodeAudioData] *)

Module ByteCodec.

(** *** [atob]: the forgiving-base64 decode of the HTML standard *)

Definition is_ascii_whitespace (c : ascii) : bool :=
  match N_of_ascii c with
  | 9%N | 10%N | 12%N | 13%N | 32%N => true
  | _ => false
  end.

Definition base64_value (c : ascii) : option N :=
  let n := N_of_ascii c in
  if ((65 <=? n) && (n <=? 90))%N then Some (n - 65)%N
  else if ((97 <=? n) && (n <=? 122))%N then Some (n - 71)%N
  else if ((48 <=? n) && (n <=? 57))%N then Some (n + 4)%N
  else if (n =? 43)%N then Some 62%N
  else if (n =? 47)%N then Some 63%N
  else None.

Definition is_equals (c : ascii) : bool := (N_of_ascii c =? 61)%N.

(** Remove one or two trailing [=], given the text reversed. *)
Definition strip_padding_rev (rev_data : list ascii) : list ascii :=
  match rev_data with
  | c1 :: c2 :: rest =>
      if is_equals c1 then (if is_equals c2 then rest else c2 :: rest)
      else rev_data
  | [c1] => if is_equals c1 then [] else rev_data
  | [] => []
  end.

Fixpoint decode_sextets (l : list N) : list ascii :=
  match l with
  | a :: b :: c :: d :: rest =>
      let n := (((a * 64 + b) * 64 + c) * 64 + d)%N in
      ascii_of_N (n / 65536) :: ascii_of_N ((n / 256) mod 256)
        :: ascii_of_N (n mod 256) :: decode_sextets rest
  | [a; b; c] =>
      let n := (((a * 64 + b) * 64 + c) / 4)%N in
      [ascii_of_N (n / 256); ascii_of_N (n mod 256)]
  | [a; b] =>
      let n := ((a * 64 + b) / 16)%N in
      [ascii_of_N n]
  | _ => []
  end.

(** [atob data]: [None] is the [InvalidCharacterError] failure.  The
    result is a binary string, one character per byte. *)
Definition atob (data : string) : option string :=
  let d1 := filter (fun c => is_ascii_whitespace c = false) (list_ascii_of_string data) in
  let d2 := if (length d1 mod 4 =? 0)%nat then rev (strip_padding_rev (rev d1)) else d1 in
  if (length d2 mod 4 =? 1)%nat then None
  else
    sextets ← mapM base64_value d2;
    Some (string_of_list_ascii (decode_sextets sextets)).

(** *** Typed arrays *)

(** A [Uint8Array] is the list of its bytes. *)
Definition Uint8Array := list byte.

(** [s.charCodeAt(i)] on a binary string; out of range is [NaN], which a
    [Uint8Array] stores as 0. *)
Definition charCodeAt (s : string) (i : nat) : byte :=
  match String.get i s with
  | Some c => byte_of_ascii c
  | None => x00
  end.

(** [base64ToUint8Array], lines 46-54: a zero-filled array of [len]
    bytes, filled index by index. *)
Definition base64ToUint8Array (base64 : string) : completion Uint8Array :=
  match atob base64 with
  | None => Throw InvalidCharacterError
  | Some binaryString =>
      let len := String.length binaryString in
      let bytes : Uint8Array := replicate len x00 in
      Normal (foldl (fun bytes i => <[i := charCodeAt binaryString i]> bytes)
                    bytes (seq 0 len))
  end.

Definition byte_to_Z (b : byte) : Z := Z.of_N (Byte.to_N b).

(** One element of an [Int16Array] view: two bytes, low byte first, read
    as a two's-complement 16-bit integer. *)
Definition int16_of_bytes (lo hi : byte) : Z :=
  let u := (byte_to_Z lo + 256 * byte_to_Z hi)%Z in
  if (u <? 32768)%Z then u else (u - 65536)%Z.

Fixpoint int16_view (buffer : list byte) : list Z :=
  match buffer with
  | lo :: hi :: rest => int16_of_bytes lo hi :: int16_view rest
  | _ => []
  end.

(** [new Int16Array(buffer)]: ECMAScript throws a [RangeError] when the
    byte length of the buffer is not a multiple of the element size. *)
Definition new_Int16Array (buffer : list byte) : completion (list Z) :=
  if Nat.even (length buffer) then Normal (int16_view buffer)
  else Throw RangeError.

(** *** Audio buffers *)

Record AudioBuffer : Type := mkAudioBuffer {
  numberOfChannels : nat;
  buffer_length : nat;
  buffer_sampleRate : Z;
  channelData : list (list number)
}.

(** Conversion of a number to the [unsigned long] the Web Audio interface
    takes: non-finite values become 0, finite ones are truncated (all
    lengths met here are below 2^32). *)
Definition to_unsigned_long (x : option Q) : nat :=
  match x with
  | None => O
  | Some q => Z.to_nat (Qfloor q)
  end.

(** [ctx.createBuffer(numberOfChannels, length, sampleRate)]: Web Audio
    throws [NotSupportedError] when an argument is zero or outside its
    nominal range; rates from 8000 Hz to 96000 Hz are always supported.
    The channels start zero-filled. *)
Definition createBuffer (numChannels : nat) (len : option Q) (rate : Z)
  : completion AudioBuffer :=
  let n := to_unsigned_long len in
  if (numChannels =? 0)%nat || (n =? 0)%nat
     || negb ((8000 <=? rate)%Z && (rate <=? 96000)%Z)
  then Throw NotSupportedError
  else Normal (mkAudioBuffer numChannels n rate
                 (replicate numChannels (replicate n (Finite 0)))).

(** [dataInt16[k] / 32768.0]; an index out of range reads [undefined],
    and the quotient is then [NaN]. *)
Definition normalized (dataInt16 : list Z) (k : nat) : number :=
  match dataInt16 !! k with
  | Some s => Finite (s # 32768)
  | None => NaN
  end.

(** Number of iterations of [for (let i = 0; i < frameCount; i++)]. *)
Definition loop_count (frameCount : option Q) : nat :=
  match frameCount with
  | None => O
  | Some q => Z.to_nat (Qceiling q)
  end.

(** The inner loop, lines 68-70.  A store past the end of a typed array
    is ignored, which is what list insertion does. *)
Definition fill_channel (dataInt16 : list Z) (frameCount : option Q)
    (numChannels channel : nat) (channelData : list number) : list number :=
  foldl (fun cd i => <[i := normalized dataInt16 (i * numChannels + channel)]> cd)
        channelData (seq 0 (loop_count frameCount)).

(** The outer loop, lines 66-71: [getChannelData] hands out the live
    array of the channel, so filling it updates the buffer. *)
Definition fill_buffer (dataInt16 : list Z) (frameCount : option Q)
    (numChannels : nat) (buffer : AudioBuffer) : AudioBuffer :=
  foldl (fun buf channel =>
           match channelData buf !! channel with
           | Some cd =>
               mkAudioBuffer (numberOfChannels buf) (buffer_length buf)
                 (buffer_sampleRate buf)
                 (<[channel := fill_channel dataInt16 frameCount numChannels channel cd]>
                    (channelData buf))
           | None => buf
           end)
        buffer (seq 0 numChannels).

(** What the samples of a decoded buffer are expected to be: channel [c],
    index [i] holds the normalised sample at interleaved position
    [i * numChannels + c]. *)
Definition deinterleaved (dataInt16 : list Z) (numChannels frames : nat)
  : list (list number) :=
  map (fun c => map (fun i => normalized dataInt16 (i * numChannels + c)) (seq 0 frames))
      (seq 0 numChannels).

(** A sample is a finite number between -1 and 1. *)
Definition in_unit_range (x : number) : Prop :=
  match x with
  | Finite q => (-1 <= q <= 1)%Q
  | NaN => False
  end.

(** [decodeAudioData], lines 56-73.  The context only serves to create
    the buffer and is left out. *)
Definition decodeAudioData (data : Uint8Array) (sampleRate : Z) (numChannels : nat)
  : completion AudioBuffer :=
  let! dataInt16 := new_Int16Array data in
  let frameCount := Js.div (length dataInt16) numChannels in
  let! buffer := createBuffer numChannels frameCount sampleRate in
  Normal (fill_buffer dataInt16 frameCount numChannels buffer).

End ByteCodec.

(** ** The [App] component: daily content cache and audio playback *)

Module App.

Import ByteCodec.

(** *** Data *)

Record DevotionalContent : Type := mkContent {
  title : string;
  verseReference : string;
  verseText : string;
  reflection : string;
  application : string;
  prayer : string
}.

Inductive View : Type := home | reading | topics | notes_list.

(** [JSON.parse] and [JSON.stringify] at the type the code asserts for
    them (the cast of line 392): [None] is the [SyntaxError] of a text
    that does not parse.  Texts that parse to a value of another shape
    are outside the model. *)
Class JsonCodec : Type := {
  JSON_parse : string -> option DevotionalContent;
  JSON_stringify : DevotionalContent -> string
}.

(** An [AudioBufferSourceNode] as far as [stop()] can tell. *)
Record AudioBufferSourceNode : Type := mkSource {
  source_buffer : AudioBuffer;
  source_connected : bool;
  source_started : bool;
  source_stopped : bool
}.

Record AudioContext : Type := mkContext {
  context_sampleRate : Z;
  context_closed : bool
}.

(** Calls that leave the component, in the order they are made: the two
    generators, the audio platform, the dialogs, and React's setters. *)
Inductive event : Type :=
| GenerateText (prompt : string)
| GenerateAudio (text : string)
| NewAudioContext (rate : Z)
| SourceStart
| SourceStop
| SourceDisconnect
| ContextClose
| Alert (message : string)
| ConsoleError (message : string)
| SetContent (c : DevotionalContent)
| SetIsLoading (b : bool)
| SetCurrentTopic (t : string)
| SetView (v : View)
| SetUserNote (n : string)
| SetIsAudioLoading (b : bool)
| SetIsPlaying (b : bool).

(** The state the handlers read and write: React state, the two refs,
    [localStorage], and the trace of outgoing calls. *)
Record State : Type := mkState {
  view : View;
  content : option DevotionalContent;
  isLoading : bool;
  currentTopic : string;
  userNote : string;
  isAudioLoading : bool;
  isPlaying : bool;
  audioContextRef : option AudioContext;
  audioSourceRef : option AudioBufferSourceNode;
  localStorage : gmap string string;
  trace : list event
}.

(** *** A state monad with exceptions *)

Definition M (A : Type) : Type := State -> completion A * State.

Definition ret {A} (a : A) : M A := fun s => (Normal a, s).

Definition bind {A B} (m : M A) (k : A -> M B) : M B :=
  fun s =>
    match m s with
    | (Normal a, s') => k a s'
    | (Throw e, s') => (Throw e, s')
    end.

Definition lift {A} (c : completion A) : M A := fun s => (c, s).

(** [try { body } catch (e) { handler e }] *)
Definition try_catch {A} (body : M A) (handler : exn -> M A) : M A :=
  fun s =>
    match body s with
    | (Normal a, s') => (Normal a, s')
    | (Throw e, s') => handler e s'
    end.

(** [try { body } finally { fin }] *)
Definition try_finally {A} (body : M A) (fin : M unit) : M A :=
  fun s =>
    match body s with
    | (r, s') =>
        match fin s' with
        | (Normal _, s'') => (r, s'')
        | (Throw e, s'') => (Throw e, s'')
        end
    end.

Definition modify (f : State -> State) : M unit := fun s => (Normal tt, f s).
Definition gets {A} (f : State -> A) : M A := fun s => (Normal (f s), s).

#[export] Instance M_ret : MRet M := @ret.
#[export] Instance M_bind : MBind M := fun A B k m => bind m k.

(** State after running [m]; outcome of running [m]. *)
Definition exec {A} (m : M A) (s : State) : State := snd (m s).
Definition outcome {A} (m : M A) (s : State) : completion A := fst (m s).

End App.

(** ** The handlers of [App] *)

Module Handlers.

Import ByteCodec App.

(** *** Truthiness *)

(** [if (x)] on a value that is a string, [null] or [undefined]. *)
Definition truthy (x : option string) : bool :=
  match x with
  | Some s => negb (String.eqb s EmptyString)
  | None => false
  end.

(** *** State updates *)

Definition log (e : event) (s : State) : State :=
  mkState (view s) (content s) (isLoading s) (currentTopic s) (userNote s)
    (isAudioLoading s) (isPlaying s) (audioContextRef s) (audioSourceRef s)
    (localStorage s) (trace s ++ [e]).

Definition emit (e : event) : M unit := modify (log e).

Definition setContent (c : DevotionalContent) : M unit :=
  modify (fun s =>
    log (SetContent c)
      (mkState (view s) (Some c) (isLoading s) (currentTopic s) (userNote s)
         (isAudioLoading s) (isPlaying s) (audioContextRef s) (audioSourceRef s)
         (localStorage s) (trace s))).

Definition setIsLoading (b : bool) : M unit :=
  modify (fun s =>
    log (SetIsLoading b)
      (mkState (view s) (content s) b (currentTopic s) (userNote s)
         (isAudioLoading s) (isPlaying s) (audioContextRef s) (audioSourceRef s)
         (localStorage s) (trace s))).

Definition setCurrentTopic (t : string) : M unit :=
  modify (fun s =>
    log (SetCurrentTopic t)
      (mkState (view s) (content s) (isLoading s) t (userNote s)
         (isAudioLoading s) (isPlaying s) (audioContextRef s) (audioSourceRef s)
         (localStorage s) (trace s))).

Definition setView (v : View) : M unit :=
  modify (fun s =>
    log (SetView v)
      (mkState v (content s) (isLoading s) (currentTopic s) (userNote s)
         (isAudioLoading s) (isPlaying s) (audioContextRef s) (audioSourceRef s)
         (localStorage s) (trace s))).

Definition setUserNote (n : string) : M unit :=
  modify (fun s =>
    log (SetUserNote n)
      (mkState (view s) (content s) (isLoading s) (currentTopic s) n
         (isAudioLoading s) (isPlaying s) (audioContextRef s) (audioSourceRef s)
         (localStorage s) (trace s))).

Definition setIsAudioLoading (b : bool) : M unit :=
  modify (fun s =>
    log (SetIsAudioLoading b)
      (mkState (view s) (content s) (isLoading s) (currentTopic s) (userNote s)
         b (isPlaying s) (audioContextRef s) (audioSourceRef s)
         (localStorage s) (trace s))).

Definition setIsPlaying (b : bool) : M unit :=
  modify (fun s =>
    log (SetIsPlaying b)
      (mkState (view s) (content s) (isLoading s) (currentTopic s) (userNote s)
         (isAudioLoading s) b (audioContextRef s) (audioSourceRef s)
         (localStorage s) (trace s))).

(** [audioContextRef.current = r] *)
Definition set_audioContextRef (r : option AudioContext) : M unit :=
  modify (fun s =>
    mkState (view s) (content s) (isLoading s) (currentTopic s) (userNote s)
      (isAudioLoading s) (isPlaying s) r (audioSourceRef s)
      (localStorage s) (trace s)).

(** [audioSourceRef.current = r] *)
Definition set_audioSourceRef (r : option AudioBufferSourceNode) : M unit :=
  modify (fun s =>
    mkState (view s) (content s) (isLoading s) (currentTopic s) (userNote s)
      (isAudioLoading s) (isPlaying s) (audioContextRef s) r
      (localStorage s) (trace s)).

Definition set_localStorage (f : gmap string string -> gmap string string) : M unit :=
  modify (fun s =>
    mkState (view s) (content s) (isLoading s) (currentTopic s) (userNote s)
      (isAudioLoading s) (isPlaying s) (audioContextRef s) (audioSourceRef s)
      (f (localStorage s)) (trace s)).

Definition localStorage_getItem (key : string) : M (option string) :=
  gets (fun s => localStorage s !! key).
(** [localStorage.setItem(key, value)].  The browser refuses the write
    with [QuotaExceededError] when the storage is full or disabled;
    [accepted] tells what it does at this call. *)
Definition localStorage_setItem (accepted : bool) (key value : string) : M unit :=
  if accepted then set_localStorage (fun m => <[key := value]> m)
  else lift (Throw QuotaExceededError).
Definition localStorage_removeItem (key : string) : M unit :=
  set_localStorage (fun m => delete key m).

(** *** The audio platform *)

(** [source.stop()].  Web Audio refuses it with [InvalidStateError] on a
    node that was never started; older engines also refuse it on a node
    that has already stopped.  The stricter behaviour is modelled. *)
Definition source_stop (n : AudioBufferSourceNode) : completion AudioBufferSourceNode :=
  if negb (source_started n) || source_stopped n then Throw InvalidStateError
  else Normal (mkSource (source_buffer n) (source_connected n) (source_started n) true).

(** [ctx.createBufferSource()] followed by [source.buffer = b]. *)
Definition createBufferSource (b : AudioBuffer) : AudioBufferSourceNode :=
  mkSource b false false false.

(** [source.connect(ctx.destination)] *)
Definition source_connect (n : AudioBufferSourceNode) : AudioBufferSourceNode :=
  mkSource (source_buffer n) true (source_started n) (source_stopped n).

(** [source.start()] on a node that was just created. *)
Definition source_start (n : AudioBufferSourceNode) : AudioBufferSourceNode :=
  mkSource (source_buffer n) (source_connected n) true (source_stopped n).

(** [source.disconnect()] never fails. *)
Definition source_disconnect (n : AudioBufferSourceNode) : AudioBufferSourceNode :=
  mkSource (source_buffer n) false (source_started n) (source_stopped n).

(** [ctx.close()] returns a promise and never throws to its caller; the
    code does not wait for it. *)
Definition context_close (c : AudioContext) : AudioContext :=
  mkContext (context_sampleRate c) true.

(** *** [stopAudio], lines 168-184 *)

Definition stopAudio : M unit :=
  current ← gets audioSourceRef;
  match current with
  | Some source =>
      try_catch
        (emit SourceStop;;
         node ← lift (source_stop source);
         set_audioSourceRef (Some node))
        (fun _ => mret tt);;
      emit SourceDisconnect;;
      current ← gets audioSourceRef;
      set_audioSourceRef (source_disconnect <$> current);;
      set_audioSourceRef None
  | None => mret tt
  end;;
  current ← gets audioContextRef;
  match current with
  | Some ctx =>
      emit ContextClose;;
      set_audioContextRef (Some (context_close ctx));;
      set_audioContextRef None
  | None => mret tt
  end;;
  setIsPlaying false;;
  setIsAudioLoading false.

(** [source.onended], lines 243-246: the callback registered for the
    natural end of the clip. *)
Definition source_onended : M unit :=
  setIsPlaying false;;
  stopAudio.

(** *** [handlePlayAudio], lines 186-259 *)

Definition nl : string := String (ascii_of_nat 10) EmptyString.

(** The template literal of lines 197-210. *)
Definition textToRead (c : DevotionalContent) : string :=
  nl ++ "        " ++ title c ++ ". " ++
  nl ++ "        Leitura de " ++ verseReference c ++ "." ++
  nl ++ "        " ++ verseText c ++
  nl ++ "        " ++
  nl ++ "        Reflexão." ++
  nl ++ "        " ++ reflection c ++
  nl ++ "        " ++
  nl ++ "        Aplicação Prática." ++
  nl ++ "        " ++ application c ++
  nl ++ "        " ++
  nl ++ "        Oração." ++
  nl ++ "        " ++ prayer c ++
  nl ++ "      ".

(** [response] is what the audio generator does when it is called:
    it throws, or it answers with the value read at line 230,
    [candidates?.[0]?.content?.parts?.[0]?.inlineData?.data]. *)
Definition handlePlayAudio (response : completion (option string)) : M unit :=
  content ← gets content;
  match content with
  | None => mret tt
  | Some content =>
      isPlaying ← gets isPlaying;
      if isPlaying : bool then stopAudio
      else
        setIsAudioLoading true;;
        try_finally
          (try_catch
             (emit (GenerateAudio (textToRead content));;
              base64Audio ← lift response;
              if truthy base64Audio then
                emit (NewAudioContext 24000);;
                let audioCtx := mkContext 24000 false in
                set_audioContextRef (Some audioCtx);;
                audioBytes ← lift (base64ToUint8Array (default EmptyString base64Audio));
                audioBuffer ← lift (decodeAudioData audioBytes 24000 1);
                let source := createBufferSource audioBuffer in
                let source := source_connect source in
                emit SourceStart;;
                let source := source_start source in
                set_audioSourceRef (Some source);;
                setIsPlaying true
              else mret tt)
             (fun error =>
                emit (ConsoleError "Error generating audio:");;
                emit (Alert "Não foi possível gerar o áudio agora.")))
          (setIsAudioLoading false)
  end.

(** *** [generateDevotional], lines 318-415 *)

(** What the outside world supplies to one call: the three readings of
    the clock (lines 325, 351 and 397), what the text generator does
    when it is called (it throws, or it answers with [response.text]),
    and whether the browser accepts the write of line 399. *)
Record TextEnv : Type := mkTextEnv {
  today_at_lookup : string;
  today_long : string;
  today_at_store : string;
  text_response : completion (option string);
  setItem_accepted : bool
}.

Definition cacheKey (todayDate : string) : string :=
  "daily_devotional_" ++ todayDate.

Definition daily_label : string := "Devocional do Dia".

(** The record of lines 404-411. *)
Definition fallback : DevotionalContent :=
  mkContent
    "Um momento de silêncio"
    "Salmos 46:10"
    "Aquietai-vos, e sabei que eu sou Deus."
    ("Às vezes, a tecnologia falha, mas a presença de Deus permanece constante. Respire fundo agora. Talvez este erro seja um convite para apenas fechar os olhos e sentir a paz que excede todo o entendimento."
       ++ nl ++ nl ++
     "Deus está no silêncio também. Ele está no espaço entre um pensamento e outro. Sinta-se abraçado pelo Criador agora mesmo.")
    "Feche os olhos por 1 minuto e apenas respire."
    "Senhor, obrigado por estar comigo mesmo quando as coisas não saem como planejado. Amém.".

Definition promptContext (topic : option string) (dateStr : string) : string :=
  if truthy topic
  then "Gere um devocional específico sobre o tema: " ++ default EmptyString topic ++ "."
  else "Gere o devocional do dia para hoje: " ++ dateStr ++ ".".

Definition parse_or_throw `{JsonCodec} (text : string) : M DevotionalContent :=
  match JSON_parse text with
  | Some v => mret v
  | None => lift (Throw SyntaxError)
  end.

(** Lines 322-341.  The result tells whether the handler returned early
    from the cache. *)
Definition daily_cache_lookup `{JsonCodec} (topic : option string) (env : TextEnv)
  : M bool :=
  if negb (truthy topic) then
    let todayDate := today_at_lookup env in
    cachedData ← localStorage_getItem (cacheKey todayDate);
    if truthy cachedData then
      try_catch
        (parsed ← parse_or_throw (default EmptyString cachedData);
         setContent parsed;;
         setCurrentTopic daily_label;;
         setView reading;;
         mret true)
        (fun e =>
           emit (ConsoleError "Cache corrupted");;
           localStorage_removeItem (cacheKey todayDate);;
           mret false)
    else mret false
  else mret false.

Definition generateDevotional `{JsonCodec} (topic : option string) (env : TextEnv)
  : M unit :=
  stopAudio;;
  setUserNote EmptyString;;
  returned ← daily_cache_lookup topic env;
  if returned : bool then mret tt
  else
    setIsLoading true;;
    setCurrentTopic (if truthy topic then default EmptyString topic else daily_label);;
    setView reading;;
    try_finally
      (try_catch
         (emit (GenerateText (promptContext topic (today_long env)));;
          text ← lift (text_response env);
          if truthy text then
            data ← parse_or_throw (default EmptyString text);
            setContent data;;
            if negb (truthy topic) then
              let todayDate := today_at_store env in
              localStorage_setItem (setItem_accepted env)
                (cacheKey todayDate) (JSON_stringify data)
            else mret tt
          else mret tt)
         (fun error =>
            emit (ConsoleError "Erro ao gerar devocional");;
            setContent fallback))
      (setIsLoading false).

(** *** Observations used by the statements *)

Definition is_generator_call (e : event) : bool :=
  match e with
  | GenerateText _ | GenerateAudio _ => true
  | _ => false
  end.

(** Number of calls made to the external generators so far. *)
Definition generator_calls (s : State) : nat :=
  length (filter (fun e => is_generator_call e = true) (trace s)).

(** The states reached after each of a series of calls of
    [generateDevotional(null)], one per element of [envs]. *)
Fixpoint daily_calls `{JsonCodec} (envs : list TextEnv) (s : State) : list State :=
  match envs with
  | [] => []
  | env :: rest =>
      let s' := exec (generateDevotional None env) s in
      s' :: daily_calls rest s'
  end.

Definition is_alert (e : event) : bool :=
  match e with
  | Alert _ => true
  | _ => false
  end.

(** The notices shown to the user so far. *)
Definition alerts (s : State) : list event :=
  filter (fun e => is_alert e = true) (trace s).

(** The calls [stopAudio] makes to release the handles it finds. *)
Definition release_events (s : State) : list event :=
  (if audioSourceRef s is Some _ then [SourceStop; SourceDisconnect] else [])
  ++ (if audioContextRef s is Some _ then [ContextClose] else []).

(** The state [stopAudio] leaves behind. *)
Definition stopped (s : State) : State :=
  mkState (view s) (content s) (isLoading s) (currentTopic s) (userNote s)
    false false None None (localStorage s)
    (trace s ++ release_events s ++ [SetIsPlaying false; SetIsAudioLoading false]).

(** What a lookup under the day key [d] would load. *)
Definition cached `{JsonCodec} (d : string) (s : State) : option DevotionalContent :=
  match localStorage s !! cacheKey d with
  | Some text => if truthy (Some text) then JSON_parse text else None
  | None => None
  end.

(** The call does not return early from the cache: the key is a topic,
    or the day has no usable entry. *)
Definition generates `{JsonCodec} (topic : option string) (env : TextEnv) (s : State)
  : Prop :=
  truthy topic = true \/ cached (today_at_lookup env) s = None.

(** The component as [useState] and [useRef] create it (lines 95-114),
    over a given [localStorage]. *)
Definition initial (storage : gmap string string) : State :=
  mkState home None false EmptyString EmptyString false false None None storage [].

(** *** A reference codec

    A small JSON writer and reader for content records, used to run the
    handlers on concrete inputs.  It writes the six fields in order and
    escapes the quote, the backslash and the line feed. *)

Definition quote : ascii := ascii_of_nat 34.
Definition backslash : ascii := ascii_of_nat 92.
Definition linefeed : ascii := ascii_of_nat 10.

Fixpoint escape (s : string) : string :=
  match s with
  | EmptyString => EmptyString
  | String c rest =>
      if Ascii.eqb c quote then String backslash (String quote (escape rest))
      else if Ascii.eqb c backslash then String backslash (String backslash (escape rest))
      else if Ascii.eqb c linefeed then String backslash (String "n"%char (escape rest))
      else String c (escape rest)
  end.

(** Reads a string body up to its closing quote; returns the decoded
    body and the text after the quote. *)
Fixpoint read_string (s : string) : option (string * string) :=
  match s with
  | EmptyString => None
  | String c rest =>
      if Ascii.eqb c quote then Some (EmptyString, rest)
      else if Ascii.eqb c backslash then
        match rest with
        | String e rest' =>
            let decoded :=
              if Ascii.eqb e "n"%char then Some linefeed
              else if Ascii.eqb e quote || Ascii.eqb e backslash then Some e
              else None in
            match decoded, read_string rest' with
            | Some d, Some (body, after) => Some (String d body, after)
            | _, _ => None
            end
        | EmptyString => None
        end
      else
        match read_string rest with
        | Some (body, after) => Some (String c body, after)
        | None => None
        end
  end.

Fixpoint expect (lit s : string) : option string :=
  match lit, s with
  | EmptyString, _ => Some s
  | String a lit', String b s' => if Ascii.eqb a b then expect lit' s' else None
  | String _ _, EmptyString => None
  end.

Definition read_field (name : string) (s : string) : option (string * string) :=
  after ← expect (String quote name ++ String quote ":" ++ String quote EmptyString) s;
  read_string after.

Definition reference_parse (text : string) : option DevotionalContent :=
  s ← expect "{" text;
  '(f1, s) ← read_field "title" s;
  s ← expect "," s;
  '(f2, s) ← read_field "verseReference" s;
  s ← expect "," s;
  '(f3, s) ← read_field "verseText" s;
  s ← expect "," s;
  '(f4, s) ← read_field "reflection" s;
  s ← expect "," s;
  '(f5, s) ← read_field "application" s;
  s ← expect "," s;
  '(f6, s) ← read_field "prayer" s;
  s ← expect "}" s;
  if String.eqb s EmptyString then Some (mkContent f1 f2 f3 f4 f5 f6) else None.

Definition write_field (name value : string) : string :=
  String quote name ++ String quote ":" ++ String quote (escape value) ++ String quote EmptyString.

Definition reference_stringify (c : DevotionalContent) : string :=
  "{" ++ write_field "title" (title c) ++
  "," ++ write_field "verseReference" (verseReference c) ++
  "," ++ write_field "verseText" (verseText c) ++
  "," ++ write_field "reflection" (reflection c) ++
  "," ++ write_field "application" (application c) ++
  "," ++ write_field "prayer" (prayer c) ++ "}".

Definition reference_codec : JsonCodec :=
  {| JSON_parse := reference_parse; JSON_stringify := reference_stringify |}.

(** *** Sample inputs *)

Definition sample : DevotionalContent :=
  mkContent "Paz" "Salmos 23:1" "O Senhor é o meu pastor; nada me faltará."
    ("Respire." ++ nl ++ "Descanse.") "Ore por um minuto." "Obrigado, Senhor.".

Definition sample_day : string := "01/03/2024".
Definition sample_day_long : string := "sexta-feira, 1 de março de 2024".

(** The generator answers with the sample record. *)
Definition env_answer : TextEnv :=
  mkTextEnv sample_day sample_day_long sample_day
    (Normal (Some (reference_stringify sample))) true.

(** The generator call fails. *)
Definition env_failure : TextEnv :=
  mkTextEnv sample_day sample_day_long sample_day (Throw GeneratorError) true.

(** The generator answers without any text. *)
Definition env_silent : TextEnv :=
  mkTextEnv sample_day sample_day_long sample_day (Normal None) true.

(** The generator answers with the sample record and the storage is
    full. *)
Definition env_storage_full : TextEnv :=
  mkTextEnv sample_day sample_day_long sample_day
    (Normal (Some (reference_stringify sample))) false.

(** A reading view with the sample record loaded. *)
Definition reading_sample : State :=
  mkState reading (Some sample) false daily_label EmptyString false false None None ∅ [].

(** A session whose source node has already stopped by itself. *)
Definition ended_session : State :=
  mkState reading (Some sample) false daily_label EmptyString false true
    (Some (mkContext 24000 false))
    (Some (mkSource (mkAudioBuffer 1 1 24000 [[Finite 0]]) true true true))
    ∅ [].

End Handlers.

(** ** The rest of [App]: diary, notifications, install banner, sharing *)

Module Shell.

Import ByteCodec App Handlers.

(** *** Data *)

(** [SavedNote], lines 22-29. *)
Record SavedNote : Type := mkNote {
  note_id : string;
  note_date : string;
  note_topic : string;
  note_content : DevotionalContent;
  note_userNote : string;
  note_timestamp : N
}.

(** [JSON.parse] and [JSON.stringify] on the list of notes, at the type
    the state declares for it; [None] is the [SyntaxError]. *)
Class NotesCodec : Type := {
  notes_parse : string -> option (list SavedNote);
  notes_stringify : list SavedNote -> string
}.

(** The answer of the user to the install prompt, [userChoice.outcome]. *)
Inductive Outcome : Type := accepted | dismissed.

(** A [beforeinstallprompt] event, with the choice the user will make
    when it is prompted. *)
Record InstallPromptEvent : Type := mkPromptEvent {
  userChoice : Outcome
}.

(** [Notification.permission] *)
Inductive Permission : Type := granted | denied | undecided.

(** Calls that leave the component from the handlers of this part. *)
Inductive shell_event : Type :=
| ShowNotification (title body : string)
| PreventDefault
| Prompt
| Confirm (message : string)
| Share (title text url : string)
| ClipboardWrite (text : string)
| ConsoleLog (message : string)
| AddInstallListener
| RemoveInstallListener.

(** The component as a whole: the state of the handlers modelled above,
    the remaining React state, whether the listener of the install event
    is registered, and the calls made so far. *)
Record Shell : Type := mkShell {
  app : State;
  savedNotes : list SavedNote;
  notificationsEnabled : bool;
  deferredPrompt : option InstallPromptEvent;
  showInstallBanner : bool;
  installListener : bool;
  effects : list shell_event
}.

(** What a handler can raise. *)
Inductive shell_exn : Type :=
| Raised (e : exn)
| ReferenceError.

Inductive result : Type :=
| Done
| Failed (e : shell_exn).

(** What the browser tells the component about notifications and time,
    and whether it accepts the write of line 287. *)
Record Platform : Type := mkPlatform {
  Notification_in_window : bool;
  Notification_permission : Permission;
  now_hours : nat;
  now_todayStr : string;
  storage_accepts : bool
}.

(** *** State updates *)

Definition with_app (f : State -> State) (sh : Shell) : Shell :=
  mkShell (f (app sh)) (savedNotes sh) (notificationsEnabled sh) (deferredPrompt sh)
    (showInstallBanner sh) (installListener sh) (effects sh).

Definition setSavedNotes (notes : list SavedNote) (sh : Shell) : Shell :=
  mkShell (app sh) notes (notificationsEnabled sh) (deferredPrompt sh)
    (showInstallBanner sh) (installListener sh) (effects sh).

Definition setNotificationsEnabled (b : bool) (sh : Shell) : Shell :=
  mkShell (app sh) (savedNotes sh) b (deferredPrompt sh)
    (showInstallBanner sh) (installListener sh) (effects sh).

Definition setDeferredPrompt (e : option InstallPromptEvent) (sh : Shell) : Shell :=
  mkShell (app sh) (savedNotes sh) (notificationsEnabled sh) e
    (showInstallBanner sh) (installListener sh) (effects sh).

Definition setShowInstallBanner (b : bool) (sh : Shell) : Shell :=
  mkShell (app sh) (savedNotes sh) (notificationsEnabled sh) (deferredPrompt sh)
    b (installListener sh) (effects sh).

Definition set_installListener (b : bool) (sh : Shell) : Shell :=
  mkShell (app sh) (savedNotes sh) (notificationsEnabled sh) (deferredPrompt sh)
    (showInstallBanner sh) b (effects sh).

Definition perform (e : shell_event) (sh : Shell) : Shell :=
  mkShell (app sh) (savedNotes sh) (notificationsEnabled sh) (deferredPrompt sh)
    (showInstallBanner sh) (installListener sh) (effects sh ++ [e]).

Definition storage_get (key : string) (sh : Shell) : option string :=
  localStorage (app sh) !! key.

(** [localStorage.setItem(key, value)] in a handler that does not catch:
    a refused write ends the handler there. *)
Definition storage_set (accepted : bool) (key value : string) (sh : Shell)
  : result * Shell :=
  match outcome (localStorage_setItem accepted key value) (app sh) with
  | Normal _ => (Done, with_app (exec (localStorage_setItem accepted key value)) sh)
  | Throw e => (Failed (Raised e), sh)
  end.

Definition alert (message : string) : Shell -> Shell :=
  with_app (log (Alert message)).

(** *** Keys and messages *)

Definition notes_key : string := "my_devotional_notes".
Definition banner_key : string := "install_banner_dismissed".
Definition notification_key : string := "last_notification_date".

(** *** [checkDailyNotification], lines 276-289

    The constructor [new Notification(...)] is taken to succeed, as it
    does once the permission is granted on the browsers that have it. *)

Definition checkDailyNotification (p : Platform) (sh : Shell) : result * Shell :=
  let hours := now_hours p in
  let todayStr := now_todayStr p in
  let lastNotif := storage_get notification_key sh in
  if (6 <=? hours)%nat && (hours <? 12)%nat
     && negb (bool_decide (lastNotif = Some todayStr))
  then
    storage_set (storage_accepts p) notification_key todayStr
      (perform
         (ShowNotification "Bom dia! ☀️"
            "Deus tem uma palavra para o seu coração hoje. Tire um momento para ouvir.")
         sh)
  else (Done, sh).

(** *** The install banner, lines 134-142 and 153-166 *)

Definition handleBeforeInstallPrompt (e : InstallPromptEvent) (sh : Shell) : Shell :=
  let sh := perform PreventDefault sh in
  let sh := setDeferredPrompt (Some e) sh in
  let isDismissed := storage_get banner_key sh in
  if negb (truthy isDismissed) then setShowInstallBanner true sh else sh.

(** The browser fires [beforeinstallprompt]: the handler runs when it is
    registered. *)
Definition window_beforeinstallprompt (e : InstallPromptEvent) (sh : Shell) : Shell :=
  if installListener sh then handleBeforeInstallPrompt e sh else sh.

Definition handleInstallClick (sh : Shell) : Shell :=
  match deferredPrompt sh with
  | None => sh
  | Some e =>
      let sh := perform Prompt sh in
      let sh :=
        match userChoice e with
        | accepted => setShowInstallBanner false sh
        | dismissed => sh
        end in
      setDeferredPrompt None sh
  end.

(** [accepted] tells whether the browser accepts the write of line 165. *)
Definition dismissInstallBanner (accepted : bool) (sh : Shell) : result * Shell :=
  storage_set accepted banner_key "true" (setShowInstallBanner false sh).

(** *** The mount effect and its cleanup, lines 121-151 *)

(** Reading [Notification] where the browser has no such interface is a
    [ReferenceError]; the effect has no guard, and no handler for the
    [SyntaxError] of [JSON.parse] nor for a write that
    [checkDailyNotification] sees refused. *)
Definition mount `{NotesCodec} (p : Platform) (sh : Shell) : result * Shell :=
  let saved := storage_get notes_key sh in
  let loaded :=
    if truthy saved then
      match notes_parse (default EmptyString saved) with
      | Some notes => Some (setSavedNotes notes sh)
      | None => None
      end
    else Some sh in
  match loaded with
  | None => (Failed (Raised SyntaxError), sh)
  | Some sh =>
      if negb (Notification_in_window p) then (Failed ReferenceError, sh)
      else
        let checked :=
          match Notification_permission p with
          | granted => checkDailyNotification p (setNotificationsEnabled true sh)
          | _ => (Done, sh)
          end in
        match checked with
        | (Done, sh) => (Done, set_installListener true (perform AddInstallListener sh))
        | (Failed e, sh) => (Failed e, sh)
        end
  end.

Definition unmount (sh : Shell) : Shell :=
  let sh := with_app (exec stopAudio) sh in
  set_installListener false (perform RemoveInstallListener sh).

(** *** [requestNotificationPermission], lines 261-274

    [answer] is what [Notification.requestPermission()] resolves to. *)
Definition requestNotificationPermission (p : Platform) (answer : Permission) (sh : Shell)
  : Shell :=
  if negb (Notification_in_window p) then
    alert "Este navegador não suporta notificações." sh
  else
    match answer with
    | granted =>
        perform
          (ShowNotification "Meu Terapeuta: DEUS"
             "Notificações ativadas! Você receberá uma palavra de ânimo pela manhã.")
          (setNotificationsEnabled true sh)
    | _ => sh
    end.

(** *** [handleShare], lines 291-310 *)

(** What the browser offers for sharing: whether [navigator.share]
    exists, whether the share it starts succeeds, and the address of the
    page. *)
Record ShareEnv : Type := mkShareEnv {
  navigator_share : bool;
  share_resolves : bool;
  location_href : string
}.

Definition shareText (c : DevotionalContent) : string :=
  "*" ++ title c ++ "*" ++ nl ++ nl ++
  String quote (verseText c) ++ String quote EmptyString ++ nl ++
  "_" ++ verseReference c ++ "_" ++ nl ++ nl ++
  "Leia a reflexão completa no app *Meu Terapeuta: DEUS*".

Definition handleShare (env : ShareEnv) (sh : Shell) : Shell :=
  match content (app sh) with
  | None => sh
  | Some c =>
      if navigator_share env then
        let sh := perform (Share "Meu Terapeuta: DEUS" (shareText c) (location_href env)) sh in
        if share_resolves env then sh
        else perform (ConsoleLog "Error sharing:") sh
      else
        alert "Devocional copiado para a área de transferência!"
          (perform (ClipboardWrite (shareText c)) sh)
  end.

(** *** [saveNote] and [deleteNote], lines 417-439 *)

(** The clock as [saveNote] reads it: [Date.now()] twice (lines 420 and
    425) and the date of the day in between; and whether the browser
    accepts the write of line 429. *)
Record NoteEnv : Type := mkNoteEnv {
  now_for_id : N;
  note_today : string;
  now_for_timestamp : N;
  note_accepted : bool
}.

Definition saveNote `{NotesCodec} (env : NoteEnv) (sh : Shell) : result * Shell :=
  match content (app sh) with
  | None => (Done, sh)
  | Some c =>
      let newNote :=
        mkNote (pretty (now_for_id env)) (note_today env) (currentTopic (app sh)) c
          (userNote (app sh)) (now_for_timestamp env) in
      let updatedNotes := newNote :: savedNotes sh in
      let sh := setSavedNotes updatedNotes sh in
      match storage_set (note_accepted env) notes_key (notes_stringify updatedNotes) sh with
      | (Done, sh) => (Done, alert "Anotação salva no seu diário!" sh)
      | (Failed e, sh) => (Failed e, sh)
      end
  end.

(** [confirmed] is the answer of the user to the [confirm] dialog and
    [accepted] tells whether the browser accepts the write of line 437. *)
Definition deleteNote `{NotesCodec} (id : string) (confirmed accepted : bool) (sh : Shell)
  : result * Shell :=
  let sh := perform (Confirm "Deseja apagar esta anotação?") sh in
  if confirmed then
    let updated := filter (fun n => note_id n ≠ id) (savedNotes sh) in
    let sh := setSavedNotes updated sh in
    storage_set accepted notes_key (notes_stringify updated) sh
  else (Done, sh).

(** *** Buttons that only navigate *)

(** The back button of the reading view, line 630. *)
Definition leave_reading : M unit :=
  stopAudio;;
  setView home.

(** *** Observations used by the statements *)

(** The component before its first effect, over a given [localStorage]. *)
Definition fresh (storage : gmap string string) : Shell :=
  mkShell (initial storage) [] false None false false [].

Definition is_notification (e : shell_event) : bool :=
  match e with
  | ShowNotification _ _ => true
  | _ => false
  end.

(** Number of notifications shown so far. *)
Definition notifications (sh : Shell) : nat :=
  length (filter (fun e => is_notification e = true) (effects sh)).

(** Whether the check of the mount effect comes to the write of line
    287: the permission is granted, the hour is in the morning window
    and the day is not the one stored. *)
Definition morning_write_due (p : Platform) (storage : gmap string string) : bool :=
  match Notification_permission p with
  | granted =>
      (6 <=? now_hours p)%nat && (now_hours p <? 12)%nat
      && negb (bool_decide (storage !! notification_key = Some (now_todayStr p)))
  | _ => false
  end.

(** The diary on disk is the diary on screen. *)
Definition notes_persisted `{NotesCodec} (sh : Shell) : Prop :=
  storage_get notes_key sh = Some (notes_stringify (savedNotes sh)).

(** *** A reference codec for the diary

    A JSON writer and reader for lists of notes, used to run the handlers
    on concrete inputs; it extends the reference codec of the content
    records. *)

Definition is_digit (c : ascii) : bool :=
  let n := N_of_ascii c in ((48 <=? n) && (n <=? 57))%N.

Fixpoint read_digits (s : string) (acc : N) : N * string :=
  match s with
  | String c rest =>
      if is_digit c then read_digits rest (acc * 10 + (N_of_ascii c - 48))%N
      else (acc, s)
  | EmptyString => (acc, s)
  end.

Definition read_number (s : string) : option (N * string) :=
  match s with
  | String c _ => if is_digit c then Some (read_digits s 0%N) else None
  | EmptyString => None
  end.

Definition read_content (s : string) : option (DevotionalContent * string) :=
  s ← expect "{" s;
  '(f1, s) ← read_field "title" s;
  s ← expect "," s;
  '(f2, s) ← read_field "verseReference" s;
  s ← expect "," s;
  '(f3, s) ← read_field "verseText" s;
  s ← expect "," s;
  '(f4, s) ← read_field "reflection" s;
  s ← expect "," s;
  '(f5, s) ← read_field "application" s;
  s ← expect "," s;
  '(f6, s) ← read_field "prayer" s;
  s ← expect "}" s;
  Some (mkContent f1 f2 f3 f4 f5 f6, s).

Definition member (name : string) : string :=
  String quote name ++ String quote ":".

Definition write_note (n : SavedNote) : string :=
  "{" ++ write_field "id" (note_id n) ++
  "," ++ write_field "date" (note_date n) ++
  "," ++ write_field "topic" (note_topic n) ++
  "," ++ member "content" ++ reference_stringify (note_content n) ++
  "," ++ write_field "userNote" (note_userNote n) ++
  "," ++ member "timestamp" ++ pretty (note_timestamp n) ++ "}".

Definition read_note (s : string) : option (SavedNote * string) :=
  s ← expect "{" s;
  '(f1, s) ← read_field "id" s;
  s ← expect "," s;
  '(f2, s) ← read_field "date" s;
  s ← expect "," s;
  '(f3, s) ← read_field "topic" s;
  s ← expect "," s;
  s ← expect (member "content") s;
  '(f4, s) ← read_content s;
  s ← expect "," s;
  '(f5, s) ← read_field "userNote" s;
  s ← expect "," s;
  s ← expect (member "timestamp") s;
  '(f6, s) ← read_number s;
  s ← expect "}" s;
  Some (mkNote f1 f2 f3 f4 f5 f6, s).

Fixpoint write_notes (l : list SavedNote) : string :=
  match l with
  | [] => EmptyString
  | [n] => write_note n
  | n :: rest => write_note n ++ "," ++ write_notes rest
  end.

(** Reads the notes of a list after its opening bracket; [fuel] bounds
    the number of notes. *)
Fixpoint read_notes (fuel : nat) (s : string) : option (list SavedNote) :=
  match fuel with
  | O => None
  | S fuel =>
      '(n, s) ← read_note s;
      match expect "," s with
      | Some s => rest ← read_notes fuel s; Some (n :: rest)
      | None => s ← expect "]" s; if String.eqb s EmptyString then Some [n] else None
      end
  end.

Definition reference_notes_parse (text : string) : option (list SavedNote) :=
  s ← expect "[" text;
  match expect "]" s with
  | Some s => if String.eqb s EmptyString then Some [] else None
  | None => read_notes (String.length s) s
  end.

Definition reference_notes_stringify (l : list SavedNote) : string :=
  "[" ++ write_notes l ++ "]".

Definition reference_notes_codec : NotesCodec :=
  {| notes_parse := reference_notes_parse; notes_stringify := reference_notes_stringify |}.

(** *** Sample inputs *)

(** A morning on which notifications are allowed. *)
Definition morning : Platform := mkPlatform true granted 8 "01/03/2024" true.


(** A browser without the [Notification] interface. *)
Definition no_notifications : Platform := mkPlatform false undecided 8 "01/03/2024" true.

(** The component showing the sample record, with a note being typed. *)
Definition writing : Shell :=
  mkShell
    (mkState reading (Some sample) false daily_label "Amém." false false None None ∅ [])
    [] false None false true [].

Definition first_save : NoteEnv := mkNoteEnv 1709290800000 sample_day 1709290800001 true.
Definition second_save : NoteEnv := mkNoteEnv 1709290860000 sample_day 1709290860000 true.

(** A save while the storage is full. *)
Definition refused_save : NoteEnv := mkNoteEnv 1709290860000 sample_day 1709290860000 false.

End Shell.

(** ** The service worker: install, fetch and activate listeners *)

Module ServiceWorker.

Definition CACHE_NAME : string := "devocional-v8".

Definition PRECACHE_URLS : list string := ["/"; "/index.html"; "/index.tsx"].

(** A request as the listeners see it: its URL, which is also its key in
    a cache, and the origin of that URL ([new URL(url).origin]).  The
    requests are GET requests, the ones a cache stores and matches. *)
Record Request : Type := mkRequest {
  request_url : string;
  request_origin : string
}.

Record Response : Type := mkResponse {
  response_status : nat;
  response_body : string
}.

(** One cache generation: responses keyed by request. *)
Abbreviation Cache := (gmap string Response).

(** The cache storage: the named generations, oldest first.  Names are
    unique. *)
Abbreviation CacheStorage := (list (string * gmap string Response)).

(** [caches.keys()] *)
Definition caches_keys (caches : CacheStorage) : list string := caches.*1.

(** The generation called [name], when there is one. *)
Fixpoint caches_lookup (name : string) (caches : CacheStorage) : option Cache :=
  match caches with
  | [] => None
  | (n, cache) :: rest =>
      if decide (n = name) then Some cache else caches_lookup name rest
  end.

(** [caches.open(name)]: the generation of that name, created empty at
    the end of the storage when there is none. *)
Definition caches_open (name : string) (caches : CacheStorage) : CacheStorage :=
  match caches_lookup name caches with
  | Some _ => caches
  | None => caches ++ [(name, ∅)]
  end.

(** Storing [response] under [key] in the generation called [name]:
    what a [cache.put(request, response)] that is accepted does. *)
Definition cache_put (name key : string) (response : Response) (caches : CacheStorage)
  : CacheStorage :=
  (fun p => if decide (p.1 = name) then (p.1, <[key := response]> p.2) else p) <$> caches.

(** [cache.put] refuses a partial response (status 206): the promise it
    returns rejects with a [TypeError] and nothing is stored. *)
Definition put_accepts (response : Response) : bool :=
  negb (response_status response =? 206)%nat.

(** [cache.match(request)] on the generation called [name]. *)
Definition cache_match (name key : string) (caches : CacheStorage) : option Response :=
  cache ← caches_lookup name caches; cache !! key.

(** [caches.match(request)]: the first generation that has the request. *)
Fixpoint caches_match (key : string) (caches : CacheStorage) : option Response :=
  match caches with
  | [] => None
  | (_, cache) :: rest =>
      match cache !! key with
      | Some r => Some r
      | None => caches_match key rest
      end
  end.

(** [caches.delete(name)] *)
Definition caches_delete (name : string) (caches : CacheStorage) : CacheStorage :=
  filter (fun p => p.1 ≠ name) caches.

(** [s.includes(sub)] *)
Fixpoint includes (s sub : string) : bool :=
  if String.prefix sub s then true
  else
    match s with
    | EmptyString => false
    | String _ rest => includes rest sub
    end.

(** [l.indexOf(x)] *)
Fixpoint indexOf (l : list string) (x : string) : Z :=
  match l with
  | [] => (-1)%Z
  | y :: rest =>
      if String.eqb y x then 0%Z
      else
        let i := indexOf rest x in
        if (i =? -1)%Z then (-1)%Z else (i + 1)%Z
  end.

(** *** Install, lines 8-16

    [cache.addAll] fetches every URL and stores the answers only when
    all of them arrived with an ok status; otherwise it rejects and stores
    nothing.  The generation is opened, hence created, in both cases.
    The URLs are written as in the source: a request for the same
    resource carries the same string as its key.  [skipWaiting] only
    changes when the worker takes over and is left out. *)
Definition response_ok (r : Response) : bool :=
  (200 <=? response_status r)%nat && (response_status r <=? 299)%nat.

Definition on_install (network : string -> completion Response) (caches : CacheStorage)
  : completion unit * CacheStorage :=
  let opened := caches_open CACHE_NAME caches in
  let fetched := (fun url => (url, network url)) <$> PRECACHE_URLS in
  if forallb (fun p => match p.2 with Normal r => response_ok r | Throw _ => false end) fetched
  then (Normal tt,
        foldl (fun cs p =>
                 match p.2 with
                 | Normal r => cache_put CACHE_NAME p.1 r cs
                 | Throw _ => cs
                 end) opened fetched)
  else (Throw NetworkError, opened).

(** *** Fetch, lines 18-47 *)

(** The test of lines 22-25. *)
Definition is_external (origin : string) : bool :=
  includes origin "esm.sh"
  || includes origin "cdn.tailwindcss.com"
  || includes origin "fonts.googleapis.com"
  || includes origin "fonts.gstatic.com".

(** What one fetch event leads to: the answer given to the page,
    whether that answer had to wait for the network, the number of
    network requests issued, and the storage afterwards. *)
Record FetchOutcome : Type := mkFetchOutcome {
  responded : completion Response;
  awaited_network : bool;
  fetches_issued : nat;
  caches_after : CacheStorage
}.

(** [network] is what [fetch(event.request)] does when it is called: it
    resolves with a response or rejects.  The promise of [cache.put]
    (line 30) is neither awaited nor returned, so when the put is refused
    the rejection goes nowhere: the answer is the same and the storage
    is left as it was. *)
Definition on_fetch (request : Request) (network : completion Response)
    (caches : CacheStorage) : FetchOutcome :=
  if is_external (request_origin request) then
    let opened := caches_open CACHE_NAME caches in
    let response := cache_match CACHE_NAME (request_url request) opened in
    let fetchPromise := network in
    let stored :=
      match fetchPromise with
      | Normal networkResponse =>
          if put_accepts networkResponse
          then cache_put CACHE_NAME (request_url request) networkResponse opened
          else opened
      | Throw _ => opened
      end in
    match response with
    | Some r => mkFetchOutcome (Normal r) false 1 stored
    | None => mkFetchOutcome fetchPromise true 1 stored
    end
  else
    match caches_match (request_url request) caches with
    | Some r => mkFetchOutcome (Normal r) false 0 caches
    | None => mkFetchOutcome network true 1 caches
    end.

(** *** Activate, lines 49-62 *)

(** The callback of lines 54-58, applied to one stored name. *)
Definition activate_step (cacheWhitelist : list string) (caches : CacheStorage)
    (cacheName : string) : CacheStorage :=
  if (indexOf cacheWhitelist cacheName =? -1)%Z
  then caches_delete cacheName caches
  else caches.

Definition on_activate (caches : CacheStorage) : CacheStorage :=
  let cacheWhitelist := [CACHE_NAME] in
  foldl (activate_step cacheWhitelist) caches (caches_keys caches).

(** *** Sample inputs *)

Definition old_response : Response := mkResponse 200 "old".
Definition new_response : Response := mkResponse 200 "new".

(** A partial answer, as a server gives to a range request. *)
Definition partial_response : Response := mkResponse 206 "part".

Definition module_request : Request :=
  mkRequest "https://esm.sh/react" "https://esm.sh".

Definition two_generations : CacheStorage :=
  [("devocional-v7", {["/" := old_response]});
   ("devocional-v8", {["https://esm.sh/react" := old_response]})].

(** A page of the app asking for its own document. *)
Definition page_request : Request :=
  mkRequest "/index.html" "https://devocional.example".


(** A network on which the script of the app is missing. *)
Definition network_without_script (url : string) : completion Response :=
  if String.eqb url "/index.tsx" then Normal (mkResponse 404 EmptyString)
  else Normal (mkResponse 200 url).

End ServiceWorker.

(** ** Helpers for the proofs *)

(** One step of a loop that rewrites the cell [c] of a list in place. *)
Definition alter_step {B : Type} (g : nat -> B -> B) (l : list B) (c : nat) : list B :=
  match l !! c with
  | Some x => <[c := g c x]> l
  | None => l
  end.

(** * Properties *)

Open Scope list_scope.

(** ** Loops that fill an array *)

Section LoopFill.
Context {A : Type} (f : nat -> A).

Lemma fill_loop_length (m : nat) (l : list A) :
  length (foldl (fun cd i => <[i := f i]> cd) l (seq 0 m)) = length l.
Proof.
  induction m as [|m IH]; [done|].
  rewrite seq_S, foldl_snoc, length_insert. exact IH.
Qed.

Lemma fill_loop_lookup (m : nat) (l : list A) (j : nat) :
  foldl (fun cd i => <[i := f i]> cd) l (seq 0 m) !! j =
    if decide (j < m /\ j < length l)%nat then Some (f j) else l !! j.
Proof.
  induction m as [|m IH].
  - cbn [seq foldl]. destruct (decide _) as [[? ?]|?]; [lia | done].
  - rewrite seq_S, foldl_snoc. simpl.
    destruct (decide (j = m)) as [->|Hne].
    + destruct (decide (m < length l)%nat) as [Hlt|Hge].
      * rewrite list_lookup_insert_eq by (rewrite fill_loop_length; lia).
        clear IH. case_decide; [done | lia].
      * rewrite list_insert_ge by (rewrite fill_loop_length; lia).
        rewrite IH. repeat case_decide; try lia; done.
    + rewrite list_lookup_insert_ne by done.
      rewrite IH. repeat case_decide; try lia; done.
Qed.

(** A loop that runs over at least the whole array leaves [f i] in every
    cell [i]; the stores past the end are lost. *)
Lemma fill_loop_map (m n : nat) (l : list A) :
  length l = n -> (n <= m)%nat ->
  foldl (fun cd i => <[i := f i]> cd) l (seq 0 m) = map f (seq 0 n).
Proof.
  intros Hl Hm. apply list_eq. intros j.
  rewrite fill_loop_lookup, list_lookup_fmap.
  destruct (decide (j < n)%nat) as [Hj|Hj].
  - rewrite lookup_seq_lt by done. simpl. case_decide; [done | lia].
  - rewrite lookup_seq_ge by lia. simpl. case_decide; [lia|].
    apply lookup_ge_None. lia.
Qed.
End LoopFill.

Section LoopAlter.
Context {B : Type} (g : nat -> B -> B).

Lemma alter_loop_lookup (m : nat) (l : list B) (j : nat) :
  foldl (alter_step g) l (seq 0 m) !! j =
    if decide (j < m)%nat then g j <$> l !! j else l !! j.
Proof.
  revert j. induction m as [|m IH]; intros j.
  - cbn [seq foldl]. destruct (decide _); [lia | done].
  - rewrite seq_S, foldl_snoc. cbn [Nat.add].
    unfold alter_step at 1.
    pose proof (IH m) as Hm. destruct (decide (m < m)%nat); [lia|].
    rewrite Hm. destruct (l !! m) as [x|] eqn:Hx.
    + destruct (decide (j = m)) as [->|Hne].
      * rewrite list_lookup_insert_eq by (apply lookup_lt_is_Some; rewrite Hm; eauto).
        rewrite Hx. destruct (decide _); [done | lia].
      * rewrite list_lookup_insert_ne by done. rewrite IH.
        destruct (decide (j < m)%nat), (decide (j < S m)%nat); try lia; done.
    + rewrite IH.
      destruct (decide (j = m)) as [->|Hne].
      * destruct (decide (m < m)%nat); [lia|].
        destruct (decide _); [by rewrite Hx | done].
      * destruct (decide (j < m)%nat), (decide (j < S m)%nat); try lia; done.
Qed.
End LoopAlter.

(** ** ByteCodec *)

Section Codec.
Import ByteCodec.

Lemma list_pair_ind {A} (P : list A -> Prop) :
  P [] -> (forall x, P [x]) -> (forall x y l, P l -> P (x :: y :: l)) ->
  forall l, P l.
Proof.
  intros H0 H1 H2.
  fix IH 1. intros [|x [|y l]]; [exact H0 | apply H1 | apply H2, IH].
Qed.

Lemma int16_view_length (data : list byte) :
  length (int16_view data) = (length data / 2)%nat.
Proof.
  induction data as [|x|x y l IH] using list_pair_ind; [done..|].
  cbn [int16_view length]. rewrite IH.
  change (S (S (length l))) with (1 * 2 + length l)%nat.
  rewrite Nat.div_add_l by lia. lia.
Qed.

Lemma int16_view_lookup (data : list byte) (i : nat) (lo hi : byte) :
  data !! (2 * i)%nat = Some lo -> data !! (2 * i + 1)%nat = Some hi ->
  int16_view data !! i = Some (int16_of_bytes lo hi).
Proof.
  revert i. induction data as [|x|x y l IH] using list_pair_ind; intros i Hlo Hhi.
  - done.
  - destruct i; [done|]. replace (2 * S i)%nat with (S (S (2 * i))) in Hlo by lia. done.
  - destruct i as [|i].
    + simpl in *. congruence.
    + replace (2 * S i)%nat with (S (S (2 * i))) in Hlo by lia.
      replace (2 * S i + 1)%nat with (S (S (2 * i + 1))) in Hhi by lia.
      cbn [int16_view]. simpl in Hlo, Hhi. simpl. apply IH; done.
Qed.

Lemma byte_to_Z_range (b : byte) : (0 <= byte_to_Z b < 256)%Z.
Proof.
  unfold byte_to_Z. pose proof (Byte.to_N_bounded b). lia.
Qed.

Lemma int16_of_bytes_range (lo hi : byte) :
  (-32768 <= int16_of_bytes lo hi <= 32767)%Z.
Proof.
  unfold int16_of_bytes.
  pose proof (byte_to_Z_range lo). pose proof (byte_to_Z_range hi).
  cbv zeta. destruct (Z.ltb_spec (byte_to_Z lo + 256 * byte_to_Z hi) 32768); lia.
Qed.

(** The value read is the two's-complement reading of the 16 bits whose
    low byte comes first. *)
Lemma int16_of_bytes_twos_complement (lo hi : byte) :
  ((int16_of_bytes lo hi) mod 65536 = byte_to_Z lo + 256 * byte_to_Z hi)%Z.
Proof.
  unfold int16_of_bytes.
  pose proof (byte_to_Z_range lo). pose proof (byte_to_Z_range hi).
  cbv zeta. destruct (Z.ltb_spec (byte_to_Z lo + 256 * byte_to_Z hi) 32768).
  - apply Z.mod_small. lia.
  - symmetry. apply (Z.mod_unique_pos _ _ (-1)); lia.
Qed.

Lemma int16_view_range (data : list byte) :
  Forall (fun s => (-32768 <= s <= 32767)%Z) (int16_view data).
Proof.
  induction data as [|x|x y l IH] using list_pair_ind; [constructor..|].
  cbn [int16_view]. constructor; [apply int16_of_bytes_range | exact IH].
Qed.

Lemma to_unsigned_long_div (a nc : nat) :
  nc <> 0%nat -> to_unsigned_long (Js.div a nc) = (a / nc)%nat.
Proof.
  intros Hnc. destruct nc as [|k]; [done|].
  unfold Js.div, to_unsigned_long, Qfloor.
  rewrite <- (positive_nat_Z (Pos.of_nat (S k))), Nat2Pos.id by done.
  rewrite <- Nat2Z.inj_div. apply Nat2Z.id.
Qed.

(** The loop runs at least as many times as the buffer has frames. *)
Lemma loop_count_ge (fc : option Q) : (to_unsigned_long fc <= loop_count fc)%nat.
Proof.
  destruct fc as [q|]; [|done]. simpl.
  pose proof (Qle_floor_ceiling q) as H. rewrite <- Zle_Qle in H. lia.
Qed.

Lemma fill_channel_fresh dataInt16 fc nc c (z : number) :
  fill_channel dataInt16 fc nc c (replicate (to_unsigned_long fc) z) =
    map (fun i => normalized dataInt16 (i * nc + c)) (seq 0 (to_unsigned_long fc)).
Proof.
  unfold fill_channel.
  apply (fill_loop_map (fun i => normalized dataInt16 (i * nc + c))).
  - apply length_replicate.
  - apply loop_count_ge.
Qed.

Lemma fill_buffer_channels dataInt16 fc nc (buf : AudioBuffer) :
  fill_buffer dataInt16 fc nc buf =
    mkAudioBuffer (numberOfChannels buf) (buffer_length buf) (buffer_sampleRate buf)
      (foldl (alter_step (fill_channel dataInt16 fc nc)) (channelData buf) (seq 0 nc)).
Proof.
  unfold fill_buffer. generalize (seq 0 nc) as l.
  intros l. revert buf. induction l as [|c l IH]; intros buf.
  - by destruct buf.
  - cbn [foldl]. rewrite IH.
    destruct (channelData buf !! c) eqn:Hc; cbn [channelData];
      unfold alter_step; rewrite ?Hc; done.
Qed.

(** Whenever the buffer has an even number of bytes and holds at least one
    whole frame, the decode succeeds and de-interleaves the samples. *)
Lemma decodeAudioData_normal (data : Uint8Array) (rate : Z) (nc : nat) :
  Nat.even (length data) = true ->
  nc <> 0%nat ->
  (8000 <= rate <= 96000)%Z ->
  (length data / 2 / nc)%nat <> 0%nat ->
  decodeAudioData data rate nc =
    Normal (mkAudioBuffer nc (length data / 2 / nc) rate
              (deinterleaved (int16_view data) nc (length data / 2 / nc))).
Proof.
  intros Heven Hnc Hrate Hn.
  unfold decodeAudioData, new_Int16Array. rewrite Heven. cbn [Js.bind].
  unfold createBuffer.
  rewrite int16_view_length.
  pose proof (to_unsigned_long_div (length data / 2) nc Hnc) as Hlen.
  rewrite Hlen.
  destruct (Nat.eqb_spec nc 0); [done|].
  destruct (Nat.eqb_spec (length data / 2 / nc) 0); [done|].
  replace ((8000 <=? rate)%Z && (rate <=? 96000)%Z) with true
    by (symmetry; apply andb_true_iff; split; apply Z.leb_le; lia).
  cbn [orb negb Js.bind]. f_equal.
  rewrite fill_buffer_channels.
  cbn [numberOfChannels buffer_length buffer_sampleRate channelData].
  f_equal. unfold deinterleaved. apply list_eq. intros j.
  rewrite alter_loop_lookup, list_lookup_fmap.
  destruct (decide (j < nc)%nat) as [Hj|Hj].
  - rewrite lookup_replicate_2 by done. rewrite lookup_seq_lt by done.
    cbn [fmap option_fmap option_map Nat.add]. f_equal.
    rewrite <- Hlen. apply fill_channel_fresh.
  - rewrite lookup_seq_ge by lia. apply lookup_replicate_None. lia.
Qed.

Lemma normalized_in_unit_range (dataInt16 : list Z) (k : nat) :
  Forall (fun s => (-32768 <= s <= 32767)%Z) dataInt16 ->
  (k < length dataInt16)%nat ->
  in_unit_range (normalized dataInt16 k).
Proof.
  intros Hall Hk. unfold normalized.
  destruct (lookup_lt_is_Some_2 dataInt16 k Hk) as [s Hs]. rewrite Hs.
  rewrite Forall_lookup in Hall. specialize (Hall k s Hs).
  unfold in_unit_range, Qle. cbn [Qnum Qden]. lia.
Qed.

(** [base64ToUint8Array] copies the decoded characters one by one. *)
Lemma base64ToUint8Array_bytes (base64 binaryString : string) :
  atob base64 = Some binaryString ->
  base64ToUint8Array base64
  = Normal (map (charCodeAt binaryString) (seq 0 (String.length binaryString))).
Proof.
  intros Hatob. unfold base64ToUint8Array. rewrite Hatob. f_equal.
  apply (fill_loop_map (charCodeAt binaryString)); [apply length_replicate | lia].
Qed.

(** C4 (as amended).  With [numChannels = 1] and the sample rate of the
    call site, every byte buffer of even, non-zero length is decoded into
    a buffer with one sample array of [length data / 2] samples; sample [i]
    is the signed 16-bit integer whose low byte is [data[2i]] and whose
    high byte is [data[2i+1]], divided by 32768; that integer lies in
    [-32768, 32767] and every sample of the array in [-1, 1]. *)
Theorem decode_mono_samples (data : Uint8Array) :
  Nat.even (length data) = true ->
  length data <> 0%nat ->
  exists samples : list number,
    decodeAudioData data 24000 1
    = Normal (mkAudioBuffer 1 (length data / 2) 24000 [samples])
    /\ length samples = (length data / 2)%nat
    /\ (forall (i : nat) (lo hi : byte),
          data !! (2 * i)%nat = Some lo -> data !! (2 * i + 1)%nat = Some hi ->
          samples !! i = Some (Finite (int16_of_bytes lo hi # 32768))
          /\ (-32768 <= int16_of_bytes lo hi <= 32767)%Z
          /\ (int16_of_bytes lo hi mod 65536 = byte_to_Z lo + 256 * byte_to_Z hi)%Z)
    /\ Forall in_unit_range samples.
Proof.
  intros Heven Hlen.
  assert (length data / 2 <> 0)%nat as Hframes.
  { apply Nat.even_spec in Heven. destruct Heven as [k Hk]. rewrite Hk in *.
    rewrite Nat.mul_comm, Nat.div_mul by lia. lia. }
  pose proof (decodeAudioData_normal data 24000 1 Heven) as Hdec.
  rewrite Nat.div_1_r in Hdec. specialize (Hdec ltac:(lia) ltac:(lia) Hframes).
  cbn [deinterleaved seq map] in Hdec.
  eexists. split; [exact Hdec|].
  split; [by rewrite length_map, length_seq|].
  split.
  - intros i lo hi Hlo Hhi.
    split; [|split; [apply int16_of_bytes_range | apply int16_of_bytes_twos_complement]].
    assert (i < length data / 2)%nat as Hi.
    { apply lookup_lt_Some in Hhi. apply Nat.div_le_lower_bound; lia. }
    rewrite list_lookup_fmap, lookup_seq_lt by done.
    cbn [fmap option_fmap option_map Nat.add]. f_equal.
    unfold normalized. replace (i * 1 + 0)%nat with i by lia.
    by rewrite (int16_view_lookup data i lo hi Hlo Hhi).
  - apply Forall_fmap, Forall_forall. intros i Hi.
    apply elem_of_seq in Hi. cbn [compose].
    apply normalized_in_unit_range; [apply int16_view_range|].
    rewrite int16_view_length. lia.
Qed.

Lemma decode_mono_samples_witness :
  exists samples : list number,
    decodeAudioData ["000"; "128"; "255"; "127"]%byte 24000 1
    = Normal (mkAudioBuffer 1 2 24000 [samples])
    /\ Forall in_unit_range samples.
Proof.
  destruct (decode_mono_samples ["000"; "128"; "255"; "127"]%byte eq_refl ltac:(discriminate))
    as (samples & Hdec & _ & _ & Hrange).
  exists samples. split; [exact Hdec | exact Hrange].
Defined.

(** C4, counterexample.  The payload [AA==] is valid base64 for a single
    byte, and the empty payload for none; neither is decoded into a
    buffer. *)
Lemma decode_unaligned_payload_fails :
  base64ToUint8Array "AA==" = Normal ["000"%byte]
  /\ decodeAudioData ["000"%byte] 24000 1 = Throw RangeError
  /\ base64ToUint8Array EmptyString = Normal []
  /\ decodeAudioData [] 24000 1 = Throw NotSupportedError.
Proof. repeat split; vm_compute; reflexivity. Qed.

(** The whole pipeline on a payload of three samples: 0, the largest and
    the smallest. *)
Example decode_pipeline_example :
  (let! audioBytes := base64ToUint8Array "AAD/fwCA" in
   decodeAudioData audioBytes 24000 1)
  = Normal (mkAudioBuffer 1 3 24000
              [[Finite (0 # 32768); Finite (32767 # 32768); Finite (-32768 # 32768)]]).
Proof. vm_compute. reflexivity. Qed.

(** C5 (as amended).  A byte buffer of odd length is refused, with the
    [RangeError] of the [Int16Array] constructor, whatever the channel
    count and the sample rate; with one channel these are all the
    misaligned buffers. *)
Theorem decode_odd_length_fails (data : Uint8Array) (rate : Z) (numChannels : nat) :
  (length data mod 2)%nat <> 0%nat ->
  decodeAudioData data rate numChannels = Throw RangeError.
Proof.
  intros Hodd. unfold decodeAudioData, new_Int16Array.
  destruct (Nat.even (length data)) eqn:Heven; [|done].
  apply Nat.even_spec in Heven. destruct Heven as [k Hk].
  exfalso. apply Hodd. rewrite Hk, Nat.mul_comm. apply Nat.Div0.mod_mul.
Qed.

Lemma decode_odd_length_fails_witness :
  (length ["001"; "002"; "003"]%byte mod 2)%nat <> 0%nat
  /\ decodeAudioData ["001"; "002"; "003"]%byte 24000 2 = Throw RangeError.
Proof.
  split; [discriminate|].
  apply (decode_odd_length_fails ["001"; "002"; "003"]%byte 24000 2). discriminate.
Defined.

(** C5, counterexample.  Six bytes are not a multiple of [2 * 2], yet
    with two channels they are decoded: one frame per channel, the third
    sample dropped. *)
Lemma decode_stereo_misaligned_succeeds :
  (length ["001"; "000"; "002"; "000"; "003"; "000"]%byte mod (2 * 2))%nat <> 0%nat
  /\ decodeAudioData ["001"; "000"; "002"; "000"; "003"; "000"]%byte 24000 2
     = Normal (mkAudioBuffer 2 1 24000 [[Finite (1 # 32768)]; [Finite (2 # 32768)]]).
Proof. split; [discriminate | vm_compute; reflexivity]. Qed.

End Codec.


(** ** The handlers *)

Import App Handlers.

(** Unfolds the monadic code of a handler and computes what it can. *)
Ltac unfold_m :=
  cbv [stopAudio source_onended handlePlayAudio generateDevotional daily_cache_lookup
       parse_or_throw
       mbind M_bind mret M_ret App.bind App.ret try_catch try_finally modify gets
       emit lift exec outcome log
       setContent setIsLoading setCurrentTopic setView setUserNote
       setIsAudioLoading setIsPlaying set_audioContextRef set_audioSourceRef
       set_localStorage localStorage_getItem localStorage_setItem
       localStorage_removeItem
       fst snd view content isLoading currentTopic userNote isAudioLoading isPlaying
       audioContextRef audioSourceRef localStorage trace
       source_stop source_disconnect context_close source_started source_stopped
       source_buffer source_connected fmap option_fmap option_map
       text_response today_at_lookup today_long today_at_store setItem_accepted
       stopped release_events negb orb andb].

(** Runs the code of a handler on the state at hand, as far as it goes. *)
Ltac run_m :=
  unfold_m;
  repeat (progress (change (truthy None) with false); unfold_m);
  repeat match goal with
         | |- context [default EmptyString (Some ?x)] =>
             change (default EmptyString (Some x)) with x
         end.

(** Splits a state into its fields, so that every projection computes. *)
Ltac open_state s :=
  destruct s as [?v ?c ?l ?t ?u ?al ?p ?ctx ?src ?ls ?tr];
  cbn [view content isLoading currentTopic userNote isAudioLoading isPlaying
       audioContextRef audioSourceRef localStorage trace] in *;
  subst.

(** Runs the code, using the equations at hand whenever it gets stuck. *)
Ltac run_hyps :=
  run_m;
  repeat (match goal with H : _ = _ |- _ => rewrite H end; run_m).

Lemma bind_run {A B} (m : M A) (k : A -> M B) (s s' : State) (a : A) :
  m s = (Normal a, s') -> (m ≫= k) s = k a s'.
Proof. intros H. cbv [mbind M_bind App.bind]. by rewrite H. Qed.

Lemma filter_calls_cons_other (e : event) (l : list event) :
  is_generator_call e = false ->
  filter (fun e => is_generator_call e = true) (e :: l)
  = filter (fun e => is_generator_call e = true) l.
Proof. intros He. rewrite filter_cons. by rewrite decide_False by (rewrite He; done). Qed.

Lemma filter_calls_cons_call (e : event) (l : list event) :
  is_generator_call e = true ->
  filter (fun e => is_generator_call e = true) (e :: l)
  = e :: filter (fun e => is_generator_call e = true) l.
Proof. intros He. rewrite filter_cons. by rewrite decide_True. Qed.

Lemma filter_alerts_cons_other (e : event) (l : list event) :
  is_alert e = false ->
  filter (fun e => is_alert e = true) (e :: l) = filter (fun e => is_alert e = true) l.
Proof. intros He. rewrite filter_cons. by rewrite decide_False by (rewrite He; done). Qed.

(** Counts the generator calls of a trace that ends in known events. *)
Ltac count_calls :=
  unfold generator_calls; cbn [trace];
  rewrite ?filter_app, ?length_app;
  repeat (first [ rewrite filter_calls_cons_other by reflexivity
                | rewrite filter_calls_cons_call by reflexivity
                | rewrite filter_nil ]);
  cbn [length]; try lia.

(** *** [stopAudio] *)

Lemma stopAudio_run (s : State) : stopAudio s = (Normal tt, stopped s).
Proof.
  destruct s as [v c l t u al p [ctx|] [src|] ls tr].
  all: try (destruct src as [b cn [|] [|]]); run_m; cbn [app];
    rewrite <- ?app_assoc; reflexivity.
Qed.

(** C8.  [stopAudio] never raises, whatever the state: with or without a
    session, and whether or not the source handle accepts [stop()].  It
    calls [stop] and [disconnect] on the source and [close] on the context
    it finds, and only then resets the two flags; afterwards both refs are
    empty and both flags false.  A second call in succession does not
    raise either, releases nothing, and changes nothing but for resetting
    the flags again. *)
Theorem stopAudio_total_idempotent (s : State) :
  outcome stopAudio s = Normal tt
  /\ (let s1 := exec stopAudio s in
      audioSourceRef s1 = None /\ audioContextRef s1 = None
      /\ isPlaying s1 = false /\ isAudioLoading s1 = false
      /\ trace s1
         = trace s ++ release_events s ++ [SetIsPlaying false; SetIsAudioLoading false]
      /\ outcome stopAudio s1 = Normal tt
      /\ exec stopAudio s1 = log (SetIsAudioLoading false) (log (SetIsPlaying false) s1)).
Proof.
  unfold outcome, exec. rewrite stopAudio_run. cbn [fst snd].
  rewrite stopAudio_run. cbn [fst snd].
  repeat split.
  open_state s. cbv [stopped log release_events
    view content isLoading currentTopic userNote isAudioLoading isPlaying
    audioContextRef audioSourceRef localStorage trace]. cbn [app].
  by rewrite <- !app_assoc.
Qed.

(** A source that has already stopped refuses [stop()]; [stopAudio]
    swallows the refusal and still releases both handles. *)
Example stopAudio_on_ended_session :
  (exists source, audioSourceRef ended_session = Some source
                  /\ source_stop source = Throw InvalidStateError)
  /\ stopAudio ended_session = (Normal tt, stopped ended_session)
  /\ release_events ended_session = [SourceStop; SourceDisconnect; ContextClose].
Proof.
  split; [eexists; split; reflexivity|]. split; [apply stopAudio_run | reflexivity].
Qed.

(** The end of the clip tears the session down as well. *)
Lemma source_onended_releases (s : State) :
  outcome source_onended s = Normal tt
  /\ audioSourceRef (exec source_onended s) = None
  /\ audioContextRef (exec source_onended s) = None
  /\ isPlaying (exec source_onended s) = false.
Proof.
  unfold outcome, exec, source_onended.
  erewrite bind_run by (unfold setIsPlaying, modify; reflexivity).
  rewrite stopAudio_run. done.
Qed.

(** *** [handlePlayAudio] *)

Lemma handlePlayAudio_without_content (response : completion (option string)) (s : State) :
  content s = None -> handlePlayAudio response s = (Normal tt, s).
Proof. intros Hc. open_state s. run_m. reflexivity. Qed.

Lemma handlePlayAudio_no_data (s : State) (c : DevotionalContent) (data : option string) :
  content s = Some c -> isPlaying s = false -> truthy data = false ->
  handlePlayAudio (Normal data) s =
    (Normal tt,
     mkState (view s) (content s) (isLoading s) (currentTopic s) (userNote s)
       false (isPlaying s) (audioContextRef s) (audioSourceRef s) (localStorage s)
       (trace s ++ [SetIsAudioLoading true; GenerateAudio (textToRead c);
                    SetIsAudioLoading false])).
Proof.
  intros Hc Hp Hd. open_state s. run_hyps. rewrite <- ?app_assoc. reflexivity.
Qed.

(** When the generator call itself fails the notice is shown. *)
Lemma handlePlayAudio_generator_throws (s : State) (c : DevotionalContent) (e : exn) :
  content s = Some c -> isPlaying s = false ->
  handlePlayAudio (Throw e) s =
    (Normal tt,
     mkState (view s) (content s) (isLoading s) (currentTopic s) (userNote s)
       false (isPlaying s) (audioContextRef s) (audioSourceRef s) (localStorage s)
       (trace s ++ [SetIsAudioLoading true; GenerateAudio (textToRead c);
                    ConsoleError "Error generating audio:";
                    Alert "Não foi possível gerar o áudio agora.";
                    SetIsAudioLoading false])).
Proof.
  intros Hc Hp. open_state s. run_hyps. rewrite <- ?app_assoc. reflexivity.
Qed.

(** While a clip plays the handler is the stop button. *)
Lemma handlePlayAudio_toggle (response : completion (option string)) (s : State)
    (c : DevotionalContent) :
  content s = Some c -> isPlaying s = true ->
  handlePlayAudio response s = stopAudio s.
Proof.
  intros Hc Hp. unfold handlePlayAudio.
  cbv [mbind M_bind App.bind gets]. rewrite Hc, Hp. destruct (stopAudio s) as [[]]; done.
Qed.

Lemma handlePlayAudio_never_throws (response : completion (option string)) (s : State) :
  outcome (handlePlayAudio response) s = Normal tt.
Proof.
  unfold outcome. destruct (content s) as [c|] eqn:Hc;
    [|by rewrite handlePlayAudio_without_content].
  destruct (isPlaying s) eqn:Hp.
  { rewrite (handlePlayAudio_toggle _ _ _ Hc Hp), stopAudio_run. done. }
  open_state s.
  destruct response as [data|e]; [destruct (truthy data) eqn:Hd|].
  2,3: run_hyps; reflexivity.
  destruct (ByteCodec.base64ToUint8Array (default EmptyString data)) as [bytes|e] eqn:Hb;
    [destruct (ByteCodec.decodeAudioData bytes 24000 1) as [buf|e] eqn:Hdec|].
  all: run_hyps; reflexivity.
Qed.

(** C10.  With no content loaded the handler returns at once: the state,
    refs and trace included, is exactly what it was, so no flag was set,
    no generator called and no context created. *)
Theorem playback_without_content_noop (response : completion (option string)) (s : State) :
  content s = None ->
  handlePlayAudio response s = (Normal tt, s).
Proof. apply handlePlayAudio_without_content. Qed.

Lemma playback_without_content_noop_witness :
  content (initial ∅) = None
  /\ handlePlayAudio (Normal (Some "AAD/fwCA")) (initial ∅) = (Normal tt, initial ∅).
Proof.
  split; [reflexivity|].
  apply (playback_without_content_noop (Normal (Some "AAD/fwCA")) (initial ∅)).
  reflexivity.
Defined.

(** C7, at the input where the code departs from it.  When the audio
    generator answers without usable data (no data at all, or an empty
    string), the handler starts no playback and ends neither playing nor
    loading, but it shows no notice: the only calls it makes are the two
    flag updates and the generator call. *)
Theorem no_audio_data_no_notice (s : State) (c : DevotionalContent) (data : option string) :
  content s = Some c -> isPlaying s = false -> truthy data = false ->
  let s' := exec (handlePlayAudio (Normal data)) s in
  trace s' = trace s ++ [SetIsAudioLoading true; GenerateAudio (textToRead c);
                         SetIsAudioLoading false]
  /\ alerts s' = alerts s
  /\ isPlaying s' = false /\ isAudioLoading s' = false
  /\ audioSourceRef s' = audioSourceRef s /\ audioContextRef s' = audioContextRef s.
Proof.
  intros Hc Hp Hd s'. subst s'. unfold exec.
  rewrite (handlePlayAudio_no_data s c data Hc Hp Hd). cbn [snd].
  unfold alerts.
  cbn [trace isPlaying isAudioLoading audioSourceRef audioContextRef].
  repeat split; [|done].
  rewrite filter_app, !filter_alerts_cons_other by reflexivity.
  rewrite filter_nil. apply app_nil_r.
Qed.

Lemma no_audio_data_no_notice_witness :
  alerts (exec (handlePlayAudio (Normal None)) reading_sample) = []
  /\ isPlaying (exec (handlePlayAudio (Normal None)) reading_sample) = false.
Proof.
  destruct (no_audio_data_no_notice reading_sample sample None eq_refl eq_refl eq_refl)
    as (_ & Halerts & Hplaying & _).
  split; [exact Halerts | exact Hplaying].
Defined.

(** *** [generateDevotional] *)

Section Daily.
Context `{JsonCodec}.

Lemma truthy_Some_true (text : string) :
  truthy (Some text) = true <-> text <> EmptyString.
Proof.
  cbn [truthy]. destruct (String.eqb_spec text EmptyString) as [->|Hne]; cbn [negb].
  - split; [discriminate | congruence].
  - split; [done | reflexivity].
Qed.

Lemma cached_Some (d : string) (s : State) (c : DevotionalContent) :
  cached d s = Some c <->
  exists text, localStorage s !! cacheKey d = Some text
               /\ truthy (Some text) = true /\ JSON_parse text = Some c.
Proof.
  unfold cached. split.
  - destruct (localStorage s !! cacheKey d) as [text|]; [|done].
    destruct (truthy (Some text)) eqn:Ht; [|done].
    intros Hp. by exists text.
  - intros (text & -> & -> & Hp). done.
Qed.

(** A usable entry for the day is loaded and nothing else happens. *)
Lemma daily_hit_run (d : string) (s : State) (env : TextEnv) (c : DevotionalContent) :
  cached d s = Some c -> today_at_lookup env = d ->
  generateDevotional None env s =
    (Normal tt,
     mkState reading (Some c) (isLoading s) daily_label EmptyString
       false false None None (localStorage s)
       (trace s ++ release_events s ++
          [SetIsPlaying false; SetIsAudioLoading false; SetUserNote EmptyString;
           SetContent c; SetCurrentTopic daily_label; SetView reading])).
Proof.
  intros (text & Hl & Hne & Hp)%cached_Some Hd.
  unfold generateDevotional.
  rewrite (bind_run _ _ _ _ _ (stopAudio_run s)).
  open_state s. destruct env as [d1 dl d2 resp acc]. cbn [today_at_lookup] in *.
  run_hyps. rewrite <- !app_assoc. reflexivity.
Qed.

Lemma daily_hit (d : string) (s : State) (env : TextEnv) (c : DevotionalContent) :
  cached d s = Some c -> today_at_lookup env = d ->
  let s' := exec (generateDevotional None env) s in
  content s' = Some c /\ generator_calls s' = generator_calls s /\ cached d s' = Some c.
Proof.
  intros Hc Hd s'. subst s'. unfold exec.
  rewrite (daily_hit_run d s env c Hc Hd). cbn [snd content].
  split; [done|]. split; [|exact Hc].
  unfold release_events. destruct (audioSourceRef s), (audioContextRef s); count_calls.
Qed.

Lemma daily_hits (d : string) (envs : list TextEnv) (s : State) (c : DevotionalContent) :
  cached d s = Some c ->
  Forall (fun e => today_at_lookup e = d) envs ->
  Forall (fun s' => content s' = Some c /\ generator_calls s' = generator_calls s)
         (daily_calls envs s).
Proof.
  revert s. induction envs as [|env envs IH]; intros s Hc Henvs; [constructor|].
  apply Forall_cons in Henvs as [Hd Henvs].
  destruct (daily_hit d s env c Hc Hd) as (Hcontent & Hcalls & Hcached).
  cbn [daily_calls]. constructor; [done|].
  rewrite <- Hcalls. by apply IH.
Qed.

(** Enters the generation phase of a call that does not return early. *)
Ltac enter_generation s topic env Hgen :=
  let Ht := fresh "Ht" in
  let Hold := fresh "Hold" in
  let Htruthy := fresh "Htruthy" in
  unfold exec, outcome, generateDevotional;
  rewrite (bind_run _ _ _ _ _ (stopAudio_run s));
  unfold generates, cached in Hgen;
  open_state s;
  destruct env as [?d1 ?dl ?d2 ?resp ?acc];
  cbn [text_response today_at_lookup today_long today_at_store setItem_accepted] in *;
  subst;
  destruct (truthy topic) eqn:Ht;
  [ clear Hgen; try (cbn [truthy] in Ht; discriminate)
  | destruct Hgen as [Hgen|Hgen]; [discriminate|];
    match type of Hgen with
    | context [?ls !! ?k] =>
        destruct (ls !! k) as [?old|] eqn:Hold;
        [ match type of Hgen with
          | context [truthy ?o] => destruct (truthy o) eqn:Htruthy
          end
        | ]
    end ];
  run_hyps.

(** A miss followed by a successful generation whose write is accepted
    stores the new record under the day key. *)
Lemma daily_miss_success (d : string) (s : State) (env : TextEnv)
    (text : string) (data : DevotionalContent) :
  cached d s = None ->
  today_at_lookup env = d -> today_at_store env = d ->
  text_response env = Normal (Some text) -> text <> EmptyString ->
  JSON_parse text = Some data ->
  setItem_accepted env = true ->
  let s' := exec (generateDevotional None env) s in
  content s' = Some data
  /\ generator_calls s' = S (generator_calls s)
  /\ localStorage s' !! cacheKey d = Some (JSON_stringify data).
Proof.
  intros Hmiss Hd1 Hd2 Hresp Hne%truthy_Some_true Hparse Hacc s'. subst s'.
  assert (generates None env s) as Hgen by (right; by rewrite Hd1).
  enter_generation s (@None string) env Hgen.
  all: split; [done|].
  all: split; [destruct src, ctx; count_calls|].
  all: apply lookup_insert_eq.
Qed.

(** An answer without text changes nothing on the screen. *)
Lemma generateDevotional_empty_answer (topic : option string) (env : TextEnv)
    (s : State) (text : option string) :
  generates topic env s ->
  text_response env = Normal text -> truthy text = false ->
  outcome (generateDevotional topic env) s = Normal tt
  /\ content (exec (generateDevotional topic env) s) = content s.
Proof.
  intros Hgen Hresp Htext.
  split; enter_generation s topic env Hgen; done.
Qed.

(** A failed call and an answer that does not parse both end with the
    fallback record on the screen. *)
Lemma generateDevotional_failure_fallback (topic : option string) (env : TextEnv)
    (s : State) :
  generates topic env s ->
  (exists e, text_response env = Throw e)
  \/ (exists text, text_response env = Normal (Some text)
                   /\ text <> EmptyString /\ JSON_parse text = None) ->
  outcome (generateDevotional topic env) s = Normal tt
  /\ content (exec (generateDevotional topic env) s) = Some fallback.
Proof.
  intros Hgen [[e Hresp]|(text & Hresp & Hne%truthy_Some_true & Hparse)].
  - split; enter_generation s topic env Hgen; done.
  - split; enter_generation s topic env Hgen; done.
Qed.

(** A successful generation puts the new record on the screen, unless
    the record is to be stored and the write is refused: the refusal is
    caught like any other error and the fallback replaces the record. *)
Lemma generateDevotional_success (topic : option string) (env : TextEnv)
    (s : State) (text : string) (data : DevotionalContent) :
  generates topic env s ->
  text_response env = Normal (Some text) -> text <> EmptyString ->
  JSON_parse text = Some data ->
  outcome (generateDevotional topic env) s = Normal tt
  /\ content (exec (generateDevotional topic env) s)
     = Some (if truthy topic || setItem_accepted env then data else fallback).
Proof.
  intros Hgen Hresp Hne%truthy_Some_true Hparse.
  destruct (setItem_accepted env) eqn:Hacc.
  all: split; enter_generation s topic env Hgen; done.
Qed.

(** No error ever leaves [generateDevotional]. *)
Lemma generateDevotional_never_throws (topic : option string) (env : TextEnv) (s : State) :
  outcome (generateDevotional topic env) s = Normal tt.
Proof.
  destruct (truthy topic) eqn:Ht0.
  2: destruct (cached (today_at_lookup env) s) as [c|] eqn:Hc.
  2: { destruct topic as [t|].
       - unfold outcome, generateDevotional.
         rewrite (bind_run _ _ _ _ _ (stopAudio_run s)).
         apply cached_Some in Hc as (old & Hold & Htruthy & Hparse).
         open_state s. destruct env as [d1 dl d2 resp acc]. cbn [today_at_lookup] in *.
         run_hyps. done.
       - unfold outcome. by rewrite (daily_hit_run _ s env c Hc eq_refl). }
  all: assert (generates topic env s) as Hgen by (unfold generates; auto).
  all: destruct (text_response env) as [[text|]|e] eqn:Hresp.
  all: try (eapply generateDevotional_failure_fallback; eauto; fail).
  all: try (eapply generateDevotional_empty_answer; eauto; fail).
  all: destruct (String.eqb_spec text EmptyString) as [->|Hne];
    [eapply generateDevotional_empty_answer; eauto|].
  all: destruct (JSON_parse text) as [data|] eqn:Hparse;
    [eapply generateDevotional_success; eauto
    |eapply generateDevotional_failure_fallback; eauto 10].
Qed.

(** A topic request calls the generator once and leaves the storage
    alone. *)
Lemma topic_bypass (topic : option string) (env : TextEnv) (s : State) :
  truthy topic = true ->
  let s' := exec (generateDevotional topic env) s in
  generator_calls s' = S (generator_calls s)
  /\ GenerateText (promptContext topic (today_long env)) ∈ trace s'
  /\ localStorage s' = localStorage s.
Proof.
  intros Ht s'. subst s'.
  unfold exec, generateDevotional.
  rewrite (bind_run _ _ _ _ _ (stopAudio_run s)).
  open_state s. destruct env as [d1 dl d2 resp acc].
  destruct resp as [[text|]|e];
    [destruct (truthy (Some text)) eqn:Htext;
     [destruct (JSON_parse text) as [data|] eqn:Hparse|]|..];
    run_hyps.
  all: split; [destruct src, ctx; count_calls|].
  all: split; [|reflexivity].
  all: rewrite !elem_of_app, !list_elem_of_singleton; tauto.
Qed.

(** C6, at the input where the code departs from it.  When the text
    generator answers without text (no text at all, or an empty string),
    a call that goes to the generator raises nothing and shows no fallback:
    the content on the screen is the one that was there before, none at
    all on a fresh start. *)
Theorem empty_answer_leaves_content (topic : option string) (env : TextEnv)
    (s : State) (text : option string) :
  generates topic env s ->
  text_response env = Normal text -> truthy text = false ->
  outcome (generateDevotional topic env) s = Normal tt
  /\ content (exec (generateDevotional topic env) s) = content s.
Proof. apply generateDevotional_empty_answer. Qed.

(** C9.  For a topic key (a non-empty topic name) every call invokes the
    text generator, with the prompt of that topic, and leaves the storage
    as it was; a second identical call right after the first invokes it
    again. *)
Theorem topic_always_generates (topic : option string) (env1 env2 : TextEnv) (s : State) :
  truthy topic = true ->
  let s1 := exec (generateDevotional topic env1) s in
  let s2 := exec (generateDevotional topic env2) s1 in
  generator_calls s1 = S (generator_calls s)
  /\ GenerateText (promptContext topic (today_long env1)) ∈ trace s1
  /\ localStorage s1 = localStorage s
  /\ generator_calls s2 = S (S (generator_calls s))
  /\ GenerateText (promptContext topic (today_long env2)) ∈ trace s2
  /\ localStorage s2 = localStorage s.
Proof.
  intros Ht s1 s2.
  destruct (topic_bypass topic env1 s Ht) as (Hcalls1 & Hin1 & Hls1).
  destruct (topic_bypass topic env2 s1 Ht) as (Hcalls2 & Hin2 & Hls2).
  fold s1 in Hcalls1, Hin1, Hls1. fold s2 in Hcalls2, Hin2, Hls2.
  repeat split; congruence.
Qed.

(** C1 (as amended).  On one day [d], take a first call whose generator,
    if it is invoked, answers with a text that parses to [data], and
    whose write to the storage, if it comes to it, is accepted, followed
    by any number of further calls.  If the storage holds a usable entry
    for [d], no call invokes the generator and every call shows that
    entry.  Otherwise the first call invokes the generator once, stores
    [data] under the key of [d] and, provided the stored text reads back
    as [data], no later call invokes the generator and every call shows
    [data]. *)
Theorem daily_cache_memo (d : string) (s : State) (env : TextEnv) (envs : list TextEnv)
    (text : string) (data : DevotionalContent) :
  today_at_lookup env = d -> today_at_store env = d ->
  Forall (fun e => today_at_lookup e = d) envs ->
  text_response env = Normal (Some text) -> text <> EmptyString ->
  JSON_parse text = Some data ->
  setItem_accepted env = true ->
  JSON_parse (JSON_stringify data) = Some data ->
  JSON_stringify data <> EmptyString ->
  let first := exec (generateDevotional None env) s in
  let later := daily_calls envs first in
  match cached d s with
  | Some c =>
      content first = Some c /\ generator_calls first = generator_calls s
      /\ Forall (fun s' => content s' = Some c /\ generator_calls s' = generator_calls s)
                later
  | None =>
      content first = Some data /\ generator_calls first = S (generator_calls s)
      /\ localStorage first !! cacheKey d = Some (JSON_stringify data)
      /\ Forall (fun s' => content s' = Some data
                           /\ generator_calls s' = S (generator_calls s))
                later
  end.
Proof.
  intros Hd1 Hd2 Henvs Hresp Hne Hparse Hacc Hround Hstored first later.
  destruct (cached d s) as [c|] eqn:Hc.
  - destruct (daily_hit d s env c Hc Hd1) as (Hcontent & Hcalls & Hcached).
    fold first in Hcontent, Hcalls, Hcached.
    repeat split; [done..|].
    rewrite <- Hcalls. by apply (daily_hits d envs first c).
  - destruct (daily_miss_success d s env text data Hc Hd1 Hd2 Hresp Hne Hparse Hacc)
      as (Hcontent & Hcalls & Hstore).
    fold first in Hcontent, Hcalls, Hstore.
    repeat split; [done..|].
    rewrite <- Hcalls. apply (daily_hits d envs first data); [|done].
    apply cached_Some. exists (JSON_stringify data).
    repeat split; [done | by apply truthy_Some_true | done].
Qed.

End Daily.

(** *** The reference codec reads back what it writes *)

Lemma append_cons (x : ascii) (a b : string) :
  String.append (String x a) b = String x (String.append a b).
Proof. reflexivity. Qed.

Lemma append_nil (b : string) : String.append EmptyString b = b.
Proof. reflexivity. Qed.

Lemma string_app_assoc (a b c : string) :
  String.append (String.append a b) c = String.append a (String.append b c).
Proof.
  induction a as [|x a IH]; [done|]. rewrite !append_cons. f_equal. exact IH.
Qed.

Lemma expect_app (lit s : string) : expect lit (String.append lit s) = Some s.
Proof.
  induction lit as [|a lit IH]; [by destruct s|].
  rewrite append_cons. cbn [expect]. by rewrite Ascii.eqb_refl.
Qed.

Lemma read_string_escape (s rest : string) :
  read_string (String.append (escape s) (String quote rest)) = Some (s, rest).
Proof.
  induction s as [|c s IH]; [rewrite append_nil; done|].
  cbn [escape].
  destruct (Ascii.eqb_spec c quote) as [->|Hq];
    [|destruct (Ascii.eqb_spec c backslash) as [->|Hb];
      [|destruct (Ascii.eqb_spec c linefeed) as [->|Hl]]].
  1-3: rewrite !append_cons; cbn [read_string]; rewrite IH; reflexivity.
  rewrite append_cons. cbn [read_string].
  rewrite (proj2 (Ascii.eqb_neq c quote) Hq), (proj2 (Ascii.eqb_neq c backslash) Hb).
  by rewrite IH.
Qed.

Lemma read_field_write (name value rest : string) :
  read_field name (String.append (write_field name value) rest) = Some (value, rest).
Proof.
  unfold read_field, write_field.
  replace (String.append
             (String.append (String quote name)
                (String.append (String quote ":")
                   (String.append (String quote (escape value))
                      (String quote EmptyString)))) rest)
    with (String.append
            (String.append (String quote name)
               (String.append (String quote ":") (String quote EmptyString)))
            (String.append (escape value) (String quote rest))).
  - rewrite expect_app. cbn [mbind option_bind]. apply read_string_escape.
  - repeat (rewrite ?string_app_assoc, ?append_cons, ?append_nil; f_equal).
Qed.

Lemma reference_roundtrip (c : DevotionalContent) :
  reference_parse (reference_stringify c) = Some c.
Proof.
  destruct c as [f1 f2 f3 f4 f5 f6]. unfold reference_parse, reference_stringify.
  cbn [title verseReference verseText reflection application prayer].
  rewrite (expect_app "{"). cbn [mbind option_bind].
  do 5 (rewrite read_field_write; cbn [mbind option_bind];
        rewrite (expect_app ","); cbn [mbind option_bind]).
  rewrite read_field_write. cbn [mbind option_bind].
  reflexivity.
Qed.

Lemma reference_stringify_nonempty (c : DevotionalContent) :
  reference_stringify c <> EmptyString.
Proof. unfold reference_stringify. rewrite append_cons. discriminate. Qed.

(** With the reference codec the provisos on the stored text hold for
    every record, so a day that starts with a successful generation costs
    one generator call however many calls follow. *)
Lemma daily_cache_memo_reference (s : State) (env : TextEnv) (envs : list TextEnv)
    (data : DevotionalContent) :
  cached (H := reference_codec) (today_at_lookup env) s = None ->
  today_at_store env = today_at_lookup env ->
  Forall (fun e => today_at_lookup e = today_at_lookup env) envs ->
  text_response env = Normal (Some (reference_stringify data)) ->
  setItem_accepted env = true ->
  Forall (fun s' => content s' = Some data /\ generator_calls s' = S (generator_calls s))
         (exec (generateDevotional (H := reference_codec) None env) s
            :: daily_calls (H := reference_codec) envs
                 (exec (generateDevotional (H := reference_codec) None env) s)).
Proof.
  intros Hmiss Hstore Henvs Hresp Hacc.
  destruct (daily_miss_success (H := reference_codec) (today_at_lookup env) s env
              (reference_stringify data) data Hmiss eq_refl Hstore Hresp
              (reference_stringify_nonempty data) (reference_roundtrip data) Hacc)
    as (Hcontent & Hcalls & Hstored).
  constructor; [done|].
  rewrite <- Hcalls. apply (daily_hits (H := reference_codec) (today_at_lookup env)).
  - apply cached_Some. exists (reference_stringify data).
    split; [exact Hstored|]. split; [|apply reference_roundtrip].
    apply truthy_Some_true, reference_stringify_nonempty.
  - done.
Qed.

Lemma empty_answer_leaves_content_witness :
  outcome (generateDevotional (H := reference_codec) None env_silent) (initial ∅) = Normal tt
  /\ content (exec (generateDevotional (H := reference_codec) None env_silent) (initial ∅))
     = None.
Proof.
  apply (empty_answer_leaves_content (H := reference_codec) None env_silent (initial ∅) None).
  - right. reflexivity.
  - reflexivity.
  - reflexivity.
Defined.

Lemma topic_always_generates_witness :
  generator_calls
    (exec (generateDevotional (H := reference_codec) (Some "Ansiedade") env_answer)
       (exec (generateDevotional (H := reference_codec) (Some "Ansiedade") env_answer)
          (initial ∅))) = 2%nat.
Proof.
  destruct (topic_always_generates (H := reference_codec) (Some "Ansiedade")
              env_answer env_answer (initial ∅) eq_refl)
    as (_ & _ & _ & Hcalls & _).
  exact Hcalls.
Defined.

Lemma daily_cache_memo_witness :
  let first := exec (generateDevotional (H := reference_codec) None env_answer) (initial ∅) in
  content first = Some sample
  /\ generator_calls first = 1%nat
  /\ Forall (fun s' => content s' = Some sample /\ generator_calls s' = 1%nat)
            (daily_calls (H := reference_codec) [env_failure; env_silent; env_answer] first).
Proof.
  pose proof (daily_cache_memo (H := reference_codec) sample_day (initial ∅) env_answer
                [env_failure; env_silent; env_answer]
                (reference_stringify sample) sample
                eq_refl eq_refl
                ltac:(repeat constructor)
                eq_refl
                ltac:(discriminate)
                ltac:(vm_compute; reflexivity)
                eq_refl
                ltac:(vm_compute; reflexivity)
                ltac:(discriminate)) as W.
  change (cached sample_day (initial ∅)) with (@None DevotionalContent) in W.
  destruct W as (Hcontent & Hcalls & _ & Hlater).
  repeat split; assumption.
Defined.

(** C1, counterexample.  Two calls on the same day, the generator failing
    at the first: the generator is invoked twice and the two calls do not
    show the same content.  The same happens when the generator answers
    at the first call and the storage refuses the write. *)
Lemma daily_generator_called_twice :
  map (fun s' => (content s', generator_calls s'))
      (daily_calls (H := reference_codec) [env_failure; env_answer] (initial ∅))
  = [(Some fallback, 1%nat); (Some sample, 2%nat)]
  /\ today_at_lookup env_failure = today_at_lookup env_answer
  /\ fallback <> sample
  /\ map (fun s' => (content s', generator_calls s'))
       (daily_calls (H := reference_codec) [env_storage_full; env_answer] (initial ∅))
     = [(Some fallback, 1%nat); (Some sample, 2%nat)].
Proof.
  split; [vm_compute; reflexivity|]. split; [reflexivity|].
  split; [discriminate | vm_compute; reflexivity].
Qed.

(** ** The service worker *)

Import ServiceWorker.

Section Worker.

Lemma filter_ext_elem {A} (P Q : A -> Prop) `{!forall x, Decision (P x)}
    `{!forall x, Decision (Q x)} (l : list A) :
  (forall x, x ∈ l -> (P x <-> Q x)) -> filter P l = filter Q l.
Proof.
  induction l as [|x l IH]; intros Hext; [done|].
  rewrite !filter_cons.
  assert (P x <-> Q x) as Hx by (apply Hext; left).
  rewrite IH by (intros y Hy; apply Hext; by right).
  destruct (decide (P x)), (decide (Q x)); tauto || done.
Qed.

Lemma filter_all {A} (P : A -> Prop) `{!forall x, Decision (P x)} (l : list A) :
  (forall x, x ∈ l -> P x) -> filter P l = l.
Proof.
  induction l as [|x l IH]; intros Hall; [done|].
  rewrite filter_cons, decide_True by (apply Hall; left).
  f_equal. apply IH. intros y Hy. apply Hall. by right.
Qed.

(** *** Activate *)

Lemma indexOf_whitelist (name : string) :
  (indexOf [CACHE_NAME] name =? -1)%Z = bool_decide (name <> CACHE_NAME).
Proof.
  cbn [indexOf]. destruct (String.eqb_spec CACHE_NAME name) as [<-|Hne].
  - by rewrite bool_decide_eq_false_2 by (intros Hn; by apply Hn).
  - by rewrite bool_decide_eq_true_2 by congruence.
Qed.

(** Deleting, among the names listed, those that are not the current one
    leaves the current generation and the generations not listed. *)
Lemma activate_fold (names : list string) (caches : CacheStorage) :
  foldl (activate_step [CACHE_NAME]) caches names
  = filter (fun p => p.1 = CACHE_NAME \/ p.1 ∉ names) caches.
Proof.
  revert caches. induction names as [|n names IH]; intros caches.
  - cbn [foldl]. symmetry. apply filter_all. intros p _. right. apply not_elem_of_nil.
  - cbn [foldl]. rewrite IH. unfold activate_step. rewrite indexOf_whitelist.
    destruct (bool_decide_reflect (n <> CACHE_NAME)) as [Hne|Heq].
    + unfold caches_delete. rewrite list_filter_filter.
      apply list_filter_iff. intros p. rewrite not_elem_of_cons.
      destruct (decide (p.1 = CACHE_NAME)) as [Hp|Hp]; [|tauto].
      split; [tauto|]. intros _. split; [tauto | congruence].
    + apply dec_stable in Heq. subst n.
      apply list_filter_iff. intros p. rewrite not_elem_of_cons.
      destruct (decide (p.1 = CACHE_NAME)); tauto.
Qed.

Lemma on_activate_filter (caches : CacheStorage) :
  on_activate caches = filter (fun p => p.1 = CACHE_NAME) caches.
Proof.
  unfold on_activate. rewrite activate_fold.
  apply filter_ext_elem. intros p Hp. split; [|tauto].
  intros [Hc|Hn]; [done|]. exfalso. apply Hn.
  unfold caches_keys. apply list_elem_of_fmap. by exists p.
Qed.

Lemma caches_keys_current (caches : CacheStorage) :
  caches_keys (filter (fun p => p.1 = CACHE_NAME) caches)
  = filter (fun name => name = CACHE_NAME) (caches_keys caches).
Proof.
  unfold caches_keys. induction caches as [|p caches IH]; [done|].
  rewrite fmap_cons, !filter_cons.
  destruct (decide (p.1 = CACHE_NAME)); by rewrite ?fmap_cons, IH.
Qed.

(** C3.  After activation the storage holds exactly the generations it
    held under the current name, with their contents, and nothing else:
    the names that remain are the stored names equal to [CACHE_NAME], so
    every generation of another name is gone.  With the generations v7
    and v8 stored and v8 current, only v8 remains. *)
Theorem activate_keeps_current_only (caches : CacheStorage) :
  on_activate caches = filter (fun p => p.1 = CACHE_NAME) caches
  /\ caches_keys (on_activate caches)
     = filter (fun name => name = CACHE_NAME) (caches_keys caches)
  /\ caches_keys (on_activate two_generations) = [CACHE_NAME].
Proof.
  split; [apply on_activate_filter|]. split.
  - rewrite on_activate_filter. apply caches_keys_current.
  - reflexivity.
Qed.

(** *** Lookups after [open] and [put] *)

Lemma caches_lookup_app (name : string) (l1 l2 : CacheStorage) :
  caches_lookup name (l1 ++ l2)
  = match caches_lookup name l1 with
    | Some c => Some c
    | None => caches_lookup name l2
    end.
Proof.
  induction l1 as [|[n c] l1 IH]; [done|].
  cbn [app caches_lookup]. by destruct (decide (n = name)).
Qed.

(** Opening a generation adds no entry and removes none. *)
Lemma cache_match_open (name key opened : string) (caches : CacheStorage) :
  cache_match name key (caches_open opened caches) = cache_match name key caches.
Proof.
  unfold caches_open, cache_match.
  destruct (caches_lookup opened caches) eqn:Hopened; [done|].
  rewrite caches_lookup_app. destruct (caches_lookup name caches) as [c|]; [done|].
  cbn [caches_lookup]. destruct (decide (opened = name)); [|done].
  cbn. apply lookup_empty.
Qed.

Lemma caches_lookup_open (name : string) (caches : CacheStorage) :
  is_Some (caches_lookup name (caches_open name caches)).
Proof.
  unfold caches_open. destruct (caches_lookup name caches) eqn:Hl; [by rewrite Hl|].
  rewrite caches_lookup_app, Hl. cbn [caches_lookup]. by rewrite decide_True.
Qed.

Lemma caches_lookup_put (name n key : string) (r : Response) (caches : CacheStorage) :
  caches_lookup name (cache_put n key r caches)
  = (fun c => if decide (name = n) then <[key := r]> c else c) <$> caches_lookup name caches.
Proof.
  unfold cache_put. induction caches as [|[m c] caches IH]; [done|].
  rewrite fmap_cons. cbn [fst snd caches_lookup].
  destruct (decide (m = n)) as [->|Hmn]; cbn [caches_lookup fst snd].
  - destruct (decide (n = name)) as [->|Hne]; [|exact IH].
    cbn. by rewrite decide_True.
  - destruct (decide (m = name)) as [->|Hne]; [|exact IH].
    cbn. by rewrite decide_False.
Qed.

Lemma cache_match_put_eq (n key : string) (r : Response) (caches : CacheStorage) :
  is_Some (caches_lookup n caches) ->
  cache_match n key (cache_put n key r caches) = Some r.
Proof.
  intros [c Hc]. unfold cache_match. rewrite caches_lookup_put, Hc.
  cbn. rewrite decide_True by done. apply lookup_insert_eq.
Qed.

Lemma cache_match_put_ne (name k n key : string) (r : Response) (caches : CacheStorage) :
  (name, k) <> (n, key) ->
  cache_match name k (cache_put n key r caches) = cache_match name k caches.
Proof.
  intros Hne. unfold cache_match. rewrite caches_lookup_put.
  destruct (caches_lookup name caches) as [c|]; [|done]. cbn.
  destruct (decide (name = n)) as [->|]; [|done].
  apply lookup_insert_ne. congruence.
Qed.

(** *** Fetch *)

(** The other origins are served cache first, and a miss is not stored. *)
Lemma on_fetch_local (request : Request) (network : completion Response)
    (caches : CacheStorage) :
  is_external (request_origin request) = false ->
  caches_after (on_fetch request network caches) = caches
  /\ responded (on_fetch request network caches)
     = match caches_match (request_url request) caches with
       | Some r => Normal r
       | None => network
       end.
Proof.
  intros Hlocal. unfold on_fetch. rewrite Hlocal.
  by destruct (caches_match (request_url request) caches).
Qed.

(** C2 (as amended).  For a request whose origin passes the test of the
    allow-list, exactly one network request is issued in every case.
    When the current generation holds a response for the request, that
    response is the answer, given without waiting for the network and
    whatever the network does; when it holds none, the answer is the
    outcome of the network request.  When the network request succeeds
    with a response that [cache.put] accepts, that response becomes the
    entry of the request in the current generation and no other entry
    changes; when it succeeds with a response that [cache.put] refuses
    (a partial response, status 206), and when it fails, every entry of
    every generation is what it was before. *)
Theorem swr_external (request : Request) (network : completion Response)
    (caches : CacheStorage) :
  is_external (request_origin request) = true ->
  let out := on_fetch request network caches in
  let key := request_url request in
  fetches_issued out = 1%nat
  /\ match cache_match CACHE_NAME key caches with
     | Some cachedResponse =>
         responded out = Normal cachedResponse /\ awaited_network out = false
     | None => responded out = network /\ awaited_network out = true
     end
  /\ match network with
     | Normal networkResponse =>
         if put_accepts networkResponse then
           cache_match CACHE_NAME key (caches_after out) = Some networkResponse
           /\ forall name k, (name, k) <> (CACHE_NAME, key) ->
                cache_match name k (caches_after out) = cache_match name k caches
         else
           forall name k, cache_match name k (caches_after out) = cache_match name k caches
     | Throw _ =>
         forall name k, cache_match name k (caches_after out) = cache_match name k caches
     end.
Proof.
  intros Hext out key. subst out key. unfold on_fetch. rewrite Hext.
  rewrite cache_match_open.
  destruct (cache_match CACHE_NAME (request_url request) caches) as [cachedResponse|];
    cbn [fetches_issued responded awaited_network caches_after].
  all: split; [done|]. all: split; [done|].
  all: destruct network as [networkResponse|e];
    [destruct (put_accepts networkResponse)|].
  all: try (intros name k; apply cache_match_open).
  all: split; [apply cache_match_put_eq, caches_lookup_open|].
  all: intros name k Hne; by rewrite cache_match_put_ne, cache_match_open.
Qed.

End Worker.

Lemma swr_external_witness :
  responded (on_fetch module_request (Normal new_response) two_generations)
  = Normal old_response
  /\ cache_match CACHE_NAME (request_url module_request)
       (caches_after (on_fetch module_request (Normal new_response) two_generations))
     = Some new_response
  /\ cache_match CACHE_NAME (request_url module_request)
       (caches_after (on_fetch module_request (Throw NetworkError) two_generations))
     = Some old_response.
Proof.
  destruct (swr_external module_request (Normal new_response) two_generations eq_refl)
    as (_ & Hanswer & Hstored & _).
  destruct (swr_external module_request (Throw NetworkError) two_generations eq_refl)
    as (_ & _ & Hkept).
  split; [apply Hanswer|]. split; [exact Hstored|].
  rewrite Hkept. reflexivity.
Defined.

(** C2, counterexample.  The network request succeeds with a partial
    response: the answer is the cached response, as claimed, but the
    entry of the request is not overwritten; the next request is served
    the old entry again. *)
Lemma swr_partial_response_not_stored :
  let out := on_fetch module_request (Normal partial_response) two_generations in
  is_external (request_origin module_request) = true
  /\ responded out = Normal old_response
  /\ cache_match CACHE_NAME (request_url module_request) (caches_after out)
     = Some old_response
  /\ responded (on_fetch module_request (Throw NetworkError) (caches_after out))
     = Normal old_response.
Proof. vm_compute. repeat split. Qed.

(** * Further properties *)

(** ** Decoding with any number of channels *)

Section Deinterleave.
Import ByteCodec.



(** A buffer of even length with fewer samples than channels, the empty
    buffer included, and any buffer when no channel is asked for, is
    refused by [createBuffer]: the decode raises [NotSupportedError] and
    produces no audio buffer. *)
Theorem decode_without_frame_fails (data : Uint8Array) (rate : Z) (numChannels : nat) :
  Nat.even (length data) = true ->
  (length data / 2 < numChannels)%nat \/ numChannels = 0%nat ->
  decodeAudioData data rate numChannels = Throw NotSupportedError.
Proof.
  intros Heven Hshort.
  unfold decodeAudioData, new_Int16Array. rewrite Heven. cbn [Js.bind].
  unfold createBuffer. rewrite int16_view_length.
  destruct (Nat.eqb_spec numChannels 0) as [Hz|Hnz]; [done|].
  destruct Hshort as [Hshort|Hz]; [|done].
  rewrite to_unsigned_long_div by done.
  rewrite Nat.div_small by done. done.
Qed.

Lemma decode_without_frame_fails_witness :
  decodeAudioData [] 24000 1 = Throw NotSupportedError
  /\ decodeAudioData ["001"; "000"]%byte 24000 2 = Throw NotSupportedError.
Proof.
  split.
  - apply (decode_without_frame_fails [] 24000 1); [reflexivity | left; vm_compute; lia].
  - apply (decode_without_frame_fails ["001"; "000"]%byte 24000 2);
      [reflexivity | left; vm_compute; lia].
Defined.

(** [base64ToUint8Array] has one byte per character of what [atob]
    decodes, byte [i] being the code of character [i]; it raises
    [InvalidCharacterError] exactly when [atob] rejects its input, and
    nothing else. *)
Theorem base64ToUint8Array_char_codes (base64 : string) :
  match atob base64 with
  | Some binaryString =>
      exists bytes,
        base64ToUint8Array base64 = Normal bytes
        /\ length bytes = String.length binaryString
        /\ forall i c, String.get i binaryString = Some c ->
             bytes !! i = Some (byte_of_ascii c)
  | None => base64ToUint8Array base64 = Throw InvalidCharacterError
  end.
Proof.
  destruct (atob base64) as [binaryString|] eqn:Hatob.
  - eexists. split; [by apply base64ToUint8Array_bytes|].
    split; [by rewrite length_map, length_seq|].
    intros i c Hget.
    assert (i < String.length binaryString)%nat as Hi.
    { clear Hatob. revert i Hget. induction binaryString as [|a s IH]; intros i Hget; [done|].
      destruct i as [|i]; cbn in *; [lia|]. apply IH in Hget. lia. }
    rewrite (list_lookup_fmap (charCodeAt binaryString)), lookup_seq_lt by done.
    cbn [fmap option_fmap option_map Nat.add]. unfold charCodeAt. by rewrite Hget.
  - unfold base64ToUint8Array. by rewrite Hatob.
Qed.

End Deinterleave.

(** ** [generateDevotional] on every path *)

Lemma release_events_no_calls (s : State) :
  filter (fun e => is_generator_call e = true) (release_events s) = [].
Proof. unfold release_events. by destruct (audioSourceRef s), (audioContextRef s). Qed.

(** Case analysis on whatever blocks the run of a handler: a storage
    lookup first, any other scrutinee that does not compute next. *)
Ltac split_stuck :=
  match goal with
  | |- context [match ?x with _ => _ end] =>
      lazymatch x with
      | context [match _ with _ => _ end] => fail
      | context [@lookup _ _ _ _ ?k ?m] => destruct (m !! k) eqn:?
      | _ => destruct x eqn:?
      end
  end.

Ltac explore := run_hyps; repeat (split_stuck; run_hyps).

(** Runs the [stopAudio] that opens [generateDevotional], keeping the
    calls that release the session as one list. *)
Ltac after_stop s :=
  unfold exec, outcome, generateDevotional;
  rewrite (bind_run _ _ _ _ _ (stopAudio_run s)); unfold stopped;
  let Hrel := fresh "Hreleased" in
  pose proof (release_events_no_calls s) as Hrel; revert Hrel;
  generalize (release_events s); intros ?released Hrel.

(** Counts the generator calls of the trace such a run leaves. *)
Ltac count_after_stop :=
  unfold generator_calls; cbn [trace];
  rewrite !filter_app, !length_app;
  repeat match goal with
         | H : filter _ ?released = [] |- _ => rewrite H
         end;
  repeat (first [ rewrite filter_calls_cons_other by reflexivity
                | rewrite filter_calls_cons_call by reflexivity
                | rewrite filter_nil ]);
  cbn [length]; lia.

(** The answers the text generator can give. *)
Ltac answers resp :=
  let text := fresh "text" in
  destruct resp as [[text|]|?e];
  [ destruct (truthy (Some text)) eqn:?Htext;
    [ destruct (JSON_parse text) as [?data|] eqn:?Hdata | ]
  | | ].

(** An event that was appended to the trace at some point is in it. *)
Ltac in_trace :=
  repeat (apply elem_of_app;
          first [ right; apply list_elem_of_singleton; reflexivity | left ]).

Lemma cacheKey_inj (d1 d2 : string) : cacheKey d1 = cacheKey d2 -> d1 = d2.
Proof. unfold cacheKey. rewrite !append_cons, !append_nil. congruence. Qed.

Lemma cacheKey_not_app_key (d : string) :
  cacheKey d <> Shell.notes_key /\ cacheKey d <> Shell.banner_key
  /\ cacheKey d <> Shell.notification_key.
Proof. unfold cacheKey. rewrite !append_cons. repeat split; discriminate. Qed.

Section Paths.
Context `{JsonCodec}.

Lemma cached_None (d : string) (s : State) :
  cached d s = None ->
  localStorage s !! cacheKey d = None
  \/ exists old, localStorage s !! cacheKey d = Some old
                 /\ (truthy (Some old) = false
                     \/ (truthy (Some old) = true /\ JSON_parse old = None)).
Proof.
  unfold cached. destruct (localStorage s !! cacheKey d) as [old|]; [|by left].
  intros Hc. right. exists old. split; [done|].
  destruct (truthy (Some old)); [right | left]; done.
Qed.

(** The entry of day [d] after the removal of a corrupted entry of day
    [d1] or after no change at all. *)
Lemma cached_after_removal (d d1 : string) (s s' : State) :
  cached d1 s = None ->
  localStorage s' = localStorage s
  \/ localStorage s' = delete (cacheKey d1) (localStorage s) ->
  cached d s' = cached d s.
Proof.
  intros Hmiss [Hs|Hs]; unfold cached in *; rewrite Hs; [done|].
  destruct (decide (d = d1)) as [->|Hne].
  - by rewrite lookup_delete_eq, Hmiss.
  - by rewrite lookup_delete_ne by (intros ?%cacheKey_inj; congruence).
Qed.

(** Whatever the arguments, the storage and the generator do,
    [generateDevotional] returns normally with the reading view on
    screen, the note field cleared, the audio session released and the
    heading set to the topic or to the daily label; the loading flag is
    down whenever the call went to the generator. *)
Theorem generateDevotional_settles (topic : option string) (env : TextEnv) (s : State) :
  let s' := exec (generateDevotional topic env) s in
  outcome (generateDevotional topic env) s = Normal tt
  /\ view s' = reading
  /\ userNote s' = EmptyString
  /\ isPlaying s' = false /\ isAudioLoading s' = false
  /\ audioSourceRef s' = None /\ audioContextRef s' = None
  /\ currentTopic s' = (if truthy topic then default EmptyString topic else daily_label)
  /\ isLoading s'
     = match (if truthy topic then None else cached (today_at_lookup env) s) with
       | Some _ => isLoading s
       | None => false
       end.
Proof.
  intros s'. subst s'. unfold cached. after_stop s.
  open_state s. destruct env as [d1 dl d2 resp acc].
  explore.
  all: repeat split; try reflexivity; try congruence.
Qed.

(** The text generator is called exactly when the call is not served
    from the cache, and then exactly once, whatever it answers: never
    for a daily request whose day has a usable entry, once for a topic
    and once for a day without usable entry. *)
Theorem generator_called_iff_not_cached (topic : option string) (env : TextEnv) (s : State) :
  generator_calls (exec (generateDevotional topic env) s)
  = match (if truthy topic then None else cached (today_at_lookup env) s) with
    | Some _ => generator_calls s
    | None => S (generator_calls s)
    end.
Proof.
  unfold cached. after_stop s.
  open_state s. destruct env as [d1 dl d2 resp acc].
  explore.
  all: try congruence.
  all: count_after_stop.
Qed.

(** The call reads and writes the storage under the key of the day it
    looks up and the key of the day it stores, and nowhere else: every
    other key keeps its value, whatever the call does. *)
Theorem generateDevotional_storage_frame (topic : option string) (env : TextEnv)
    (s : State) (key : string) :
  key <> cacheKey (today_at_lookup env) ->
  key <> cacheKey (today_at_store env) ->
  localStorage (exec (generateDevotional topic env) s) !! key = localStorage s !! key.
Proof.
  intros Hlookup Hstore. after_stop s.
  open_state s. destruct env as [d1 dl d2 resp acc].
  cbn [today_at_lookup today_at_store setItem_accepted] in *.
  explore.
  all: rewrite ?lookup_insert_ne, ?lookup_delete_ne by congruence; reflexivity.
Qed.

(** A generation that does not end with a record that parses (the call
    fails, the answer has no text, or the text does not parse) stores
    nothing: for every day, what a lookup of that day would load is what
    it was before the call. *)
Theorem failed_generation_stores_nothing (env : TextEnv) (s : State) :
  cached (today_at_lookup env) s = None ->
  match text_response env with
  | Normal (Some text) => text = EmptyString \/ JSON_parse text = None
  | _ => True
  end ->
  forall d, cached d (exec (generateDevotional None env) s) = cached d s.
Proof.
  intros Hmiss Hfail d. apply (cached_after_removal d (today_at_lookup env)); [done|].
  clear Hmiss. after_stop s.
  open_state s. destruct env as [d1 dl d2 resp acc].
  cbn [today_at_lookup today_at_store text_response setItem_accepted] in *.
  destruct resp as [[text|]|e].
  1: destruct Hfail as [->|Hfail].
  all: assert (truthy (Some EmptyString) = false) as Hempty by reflexivity.
  all: explore; auto.
Qed.

(** A daily entry that does not parse is reported, removed, and the
    record is generated again: the generator is called once, and the
    entry of the day ends up being the new record when the generation
    succeeds and the write is accepted, and absent otherwise: when the
    generation fails, and when the browser refuses the write. *)
Theorem corrupted_entry_regenerated (d old : string) (env : TextEnv) (s : State) :
  localStorage s !! cacheKey d = Some old ->
  old <> EmptyString ->
  JSON_parse old = None ->
  today_at_lookup env = d -> today_at_store env = d ->
  let s' := exec (generateDevotional None env) s in
  ConsoleError "Cache corrupted" ∈ trace s'
  /\ generator_calls s' = S (generator_calls s)
  /\ localStorage s' !! cacheKey d
     = match text_response env with
       | Normal (Some text) =>
           if truthy (Some text) && setItem_accepted env
           then JSON_stringify <$> JSON_parse text
           else None
       | _ => None
       end.
Proof.
  intros Hold Hne%truthy_Some_true Hparse Hd1 Hd2 s'. subst s'.
  after_stop s.
  open_state s. destruct env as [d1 dl d2 resp acc].
  cbn [today_at_lookup today_at_store text_response setItem_accepted] in *. subst.
  destruct acc; answers resp; run_hyps.
  all: split; [in_trace|].
  all: split; [count_after_stop|].
  all: cbn [fmap option_fmap option_map];
    rewrite ?lookup_insert_eq, ?lookup_delete_eq; reflexivity.
Qed.

(** The record of a daily generation is stored under the day read when
    the answer arrives, not under the day that was looked up: when
    midnight passes in between, the new day gets the entry, replacing
    the one it had, and the day that was looked up stays without one.
    That is when the browser accepts the write.  When it refuses, the
    refusal is caught like a failure of the generator: the fallback
    replaces the record that had just been put on screen, and what a
    lookup of any day would load is what it was before the call. *)
Theorem generation_stored_under_store_day (d1 d2 : string) (env : TextEnv) (s : State)
    (text : string) (data : DevotionalContent) :
  cached d1 s = None ->
  today_at_lookup env = d1 -> today_at_store env = d2 ->
  text_response env = Normal (Some text) -> text <> EmptyString ->
  JSON_parse text = Some data ->
  let s' := exec (generateDevotional None env) s in
  content s' = Some (if setItem_accepted env then data else fallback)
  /\ (if setItem_accepted env
      then localStorage s' !! cacheKey d2 = Some (JSON_stringify data)
      else forall d, cached d s' = cached d s)
  /\ (d1 <> d2 -> cached d1 s' = None).
Proof.
  intros Hmiss Hd1 Hd2 Hresp Hne%truthy_Some_true Hparse s'. subst s'.
  destruct (setItem_accepted env) eqn:Hacc.
  - after_stop s.
    apply cached_None in Hmiss as [Hl|(old & Hl & [Ht|[Ht Hp]])].
    all: open_state s; destruct env as [e1 dl e2 resp acc].
    all: cbn [today_at_lookup today_at_store text_response setItem_accepted] in *; subst.
    all: run_hyps.
    all: split; [reflexivity|]. all: split; [apply lookup_insert_eq|].
    all: intros Hdays; unfold cached; cbn [localStorage].
    all: rewrite lookup_insert_ne by (intros ?%cacheKey_inj; congruence).
    all: rewrite ?lookup_delete_eq, ?Hl, ?Ht; reflexivity.
  - assert (content (exec (generateDevotional None env) s) = Some fallback
            /\ (localStorage (exec (generateDevotional None env) s) = localStorage s
                \/ localStorage (exec (generateDevotional None env) s)
                   = delete (cacheKey d1) (localStorage s))) as [Hcontent Hstorage].
    { pose proof Hmiss as Hmiss0. after_stop s.
      apply cached_None in Hmiss0 as [Hl|(old & Hl & [Ht|[Ht Hp]])].
      all: open_state s; destruct env as [e1 dl e2 resp acc].
      all: cbn [today_at_lookup today_at_store text_response setItem_accepted] in *; subst.
      all: run_hyps; auto. }
    split; [exact Hcontent|]. split.
    + intros d. by apply (cached_after_removal d d1).
    + intros _. by rewrite (cached_after_removal d1 d1 s _ Hmiss Hstorage).
Qed.

End Paths.

Lemma generateDevotional_storage_frame_witness :
  let storage : gmap string string :=
    {[Shell.notes_key := "[]"; cacheKey "29/02/2024" := reference_stringify fallback]} in
  let s' := exec (generateDevotional (H := reference_codec) None env_answer) (initial storage) in
  localStorage s' !! Shell.notes_key = Some "[]"
  /\ localStorage s' !! cacheKey "29/02/2024" = Some (reference_stringify fallback).
Proof.
  intros storage s'. subst s'. split.
  - rewrite (generateDevotional_storage_frame (H := reference_codec) None env_answer
               (initial storage) Shell.notes_key); [reflexivity | discriminate..].
  - rewrite (generateDevotional_storage_frame (H := reference_codec) None env_answer
               (initial storage) (cacheKey "29/02/2024")); [reflexivity | discriminate..].
Defined.

Lemma failed_generation_stores_nothing_witness :
  cached (H := reference_codec) sample_day
    (exec (generateDevotional (H := reference_codec) None env_failure) (initial ∅)) = None.
Proof.
  rewrite (failed_generation_stores_nothing (H := reference_codec) env_failure (initial ∅));
    [reflexivity | reflexivity | exact I].
Defined.

Lemma corrupted_entry_regenerated_witness :
  let storage : gmap string string := {[cacheKey sample_day := "{broken"]} in
  let s1 := exec (generateDevotional (H := reference_codec) None env_answer)
              (initial storage) in
  let s2 := exec (generateDevotional (H := reference_codec) None env_storage_full)
              (initial storage) in
  generator_calls s1 = 1%nat
  /\ localStorage s1 !! cacheKey sample_day = Some (reference_stringify sample)
  /\ localStorage s2 !! cacheKey sample_day = None.
Proof.
  intros storage s1 s2. subst s1 s2.
  destruct (corrupted_entry_regenerated (H := reference_codec) sample_day "{broken"
              env_answer (initial storage))
    as (_ & Hcalls & Hstored);
    [reflexivity | discriminate | reflexivity | reflexivity | reflexivity |].
  destruct (corrupted_entry_regenerated (H := reference_codec) sample_day "{broken"
              env_storage_full (initial storage))
    as (_ & _ & Hrefused);
    [reflexivity | discriminate | reflexivity | reflexivity | reflexivity |].
  split; [exact Hcalls|]. split.
  - rewrite Hstored. vm_compute. reflexivity.
  - rewrite Hrefused. reflexivity.
Defined.

Lemma generation_stored_under_store_day_witness :
  let env := mkTextEnv "01/03/2024" sample_day_long "02/03/2024"
               (Normal (Some (reference_stringify sample))) true in
  let s' := exec (generateDevotional (H := reference_codec) None env) (initial ∅) in
  let full := exec (generateDevotional (H := reference_codec) None env_storage_full)
                (initial ∅) in
  localStorage s' !! cacheKey "02/03/2024" = Some (reference_stringify sample)
  /\ cached (H := reference_codec) "01/03/2024" s' = None
  /\ content full = Some fallback
  /\ cached (H := reference_codec) sample_day full = None.
Proof.
  intros env s' full. subst s' full.
  destruct (generation_stored_under_store_day (H := reference_codec)
              "01/03/2024" "02/03/2024" env (initial ∅) (reference_stringify sample) sample)
    as (_ & Hstored & Hold);
    [reflexivity | reflexivity | reflexivity | reflexivity | discriminate
    | vm_compute; reflexivity |].
  destruct (generation_stored_under_store_day (H := reference_codec)
              sample_day sample_day env_storage_full (initial ∅)
              (reference_stringify sample) sample)
    as (Hfallback & Hnothing & _);
    [reflexivity | reflexivity | reflexivity | reflexivity | discriminate
    | vm_compute; reflexivity |].
  split; [exact Hstored|]. split; [apply Hold; discriminate|].
  split; [exact Hfallback|]. rewrite (Hnothing sample_day). reflexivity.
Defined.

(** ** The audio session *)

(** A click on the audio button while a clip plays is the stop button:
    the handler does what [stopAudio] does and nothing more, so the
    session is released, both flags are down, and the generator is not
    called. *)
Theorem playing_click_stops (response : completion (option string)) (s : State)
    (c : DevotionalContent) :
  content s = Some c -> isPlaying s = true ->
  let s' := exec (handlePlayAudio response) s in
  handlePlayAudio response s = stopAudio s
  /\ isPlaying s' = false /\ isAudioLoading s' = false
  /\ audioSourceRef s' = None /\ audioContextRef s' = None
  /\ generator_calls s' = generator_calls s
  /\ content s' = content s.
Proof.
  intros Hc Hp s'. subst s'. unfold exec.
  rewrite (handlePlayAudio_toggle response s c Hc Hp), stopAudio_run.
  cbn [snd stopped isPlaying isAudioLoading audioSourceRef audioContextRef content].
  do 5 (split; [reflexivity|]). split; [|reflexivity].
  unfold generator_calls. cbn [trace stopped].
  rewrite !filter_app, release_events_no_calls, !length_app.
  rewrite !filter_calls_cons_other by reflexivity. rewrite filter_nil. cbn [length]. lia.
Qed.

Lemma playing_click_stops_witness :
  let s' := exec (handlePlayAudio (Throw NetworkError)) ended_session in
  isPlaying s' = false /\ audioSourceRef s' = None /\ generator_calls s' = 0%nat.
Proof.
  destruct (playing_click_stops (Throw NetworkError) ended_session sample eq_refl eq_refl)
    as (_ & Hplaying & _ & Hsource & _ & Hcalls & _).
  split; [exact Hplaying|]. split; [exact Hsource | exact Hcalls].
Defined.

(** When the generator answers with a payload that decodes to an even,
    non-zero number of bytes, playback starts: one generator call, a new
    context at 24000 Hz kept in its ref, a source holding the decoded
    samples, connected and started, kept in its ref, the playing flag up
    and the loading flag down, and no notice.  A context that an earlier
    attempt left in the ref is replaced without being closed. *)
Theorem playback_starts (s : State) (c : DevotionalContent) (data : option string)
    (bytes : ByteCodec.Uint8Array) :
  content s = Some c -> isPlaying s = false ->
  truthy data = true ->
  ByteCodec.base64ToUint8Array (default EmptyString data) = Normal bytes ->
  Nat.even (length bytes) = true -> length bytes <> 0%nat ->
  let s' := exec (handlePlayAudio (Normal data)) s in
  let buffer :=
    ByteCodec.mkAudioBuffer 1 (length bytes / 2) 24000
      (ByteCodec.deinterleaved (ByteCodec.int16_view bytes) 1 (length bytes / 2)) in
  outcome (handlePlayAudio (Normal data)) s = Normal tt
  /\ isPlaying s' = true /\ isAudioLoading s' = false
  /\ audioContextRef s' = Some (mkContext 24000 false)
  /\ audioSourceRef s' = Some (mkSource buffer true true false)
  /\ trace s' = trace s ++ [SetIsAudioLoading true; GenerateAudio (textToRead c);
                            NewAudioContext 24000; SourceStart; SetIsPlaying true;
                            SetIsAudioLoading false].
Proof.
  intros Hc Hp Hd Hb Heven Hlen s' buffer. subst s' buffer.
  assert (length bytes / 2 / 1 <> 0)%nat as Hframes.
  { rewrite Nat.div_1_r. intros Hz. apply Nat.div_small_iff in Hz; [|done].
    destruct (length bytes) as [|[|n]]; [done | discriminate | lia]. }
  pose proof (decodeAudioData_normal bytes 24000 1 Heven ltac:(done) ltac:(lia) Hframes)
    as Hdec.
  rewrite Nat.div_1_r in Hdec. clear Hframes.
  revert Hdec. generalize (length bytes / 2)%nat. intros frames Hdec.
  open_state s. run_hyps.
  rewrite <- !app_assoc. repeat split.
Qed.

Lemma playback_starts_witness :
  let s' := exec (handlePlayAudio (Normal (Some "AAD/fwCA"))) reading_sample in
  isPlaying s' = true
  /\ (ByteCodec.channelData ∘ source_buffer <$> audioSourceRef s')
     = Some [[Finite (0 # 32768); Finite (32767 # 32768); Finite (-32768 # 32768)]].
Proof.
  destruct (playback_starts reading_sample sample (Some "AAD/fwCA")
              ["000"; "000"; "255"; "127"; "000"; "128"]%byte)
    as (_ & Hplaying & _ & _ & Hsource & _);
    [reflexivity | reflexivity | reflexivity | vm_compute; reflexivity | reflexivity
    | discriminate |].
  split; [exact Hplaying|]. rewrite Hsource. vm_compute. reflexivity.
Defined.

(** Every failure after the click shows the notice, once, and the
    handler ends neither playing nor loading, with the source ref as it
    was: when the call to the generator fails, when the payload is not
    valid base64, and when the bytes it decodes to are refused.  In the
    last two cases the context created for the attempt is neither closed
    nor dropped: it stays, open, in [audioContextRef]. *)
Theorem playback_failure_shows_notice (response : completion (option string))
    (s : State) (c : DevotionalContent) :
  content s = Some c -> isPlaying s = false ->
  match response with
  | Throw _ => True
  | Normal data =>
      truthy data = true
      /\ exists e,
           (let! audioBytes := ByteCodec.base64ToUint8Array (default EmptyString data) in
            ByteCodec.decodeAudioData audioBytes 24000 1) = Throw e
  end ->
  let s' := exec (handlePlayAudio response) s in
  outcome (handlePlayAudio response) s = Normal tt
  /\ alerts s' = alerts s ++ [Alert "Não foi possível gerar o áudio agora."]
  /\ isPlaying s' = false /\ isAudioLoading s' = false
  /\ audioSourceRef s' = audioSourceRef s
  /\ audioContextRef s'
     = match response with
       | Throw _ => audioContextRef s
       | Normal _ => Some (mkContext 24000 false)
       end
  /\ generator_calls s' = S (generator_calls s).
Proof.
  intros Hc Hp Hfail s'. subst s'.
  destruct response as [data|e]; [destruct Hfail as (Hd & e & Hfail)|].
  1: destruct (ByteCodec.base64ToUint8Array (default EmptyString data)) as [bytes|e1] eqn:Hb;
    cbn [Js.bind] in Hfail.
  all: open_state s; run_hyps.
  all: unfold alerts; cbn [trace].
  all: split; [reflexivity|]. all: split; [|repeat split; count_calls].
  all: rewrite !filter_app; repeat (rewrite filter_alerts_cons_other by reflexivity).
  all: rewrite ?filter_nil, ?app_nil_r; reflexivity.
Qed.

Lemma playback_failure_shows_notice_witness :
  let s1 := exec (handlePlayAudio (Normal (Some "AA=="))) reading_sample in
  let s2 := exec (handlePlayAudio (Throw GeneratorError)) reading_sample in
  alerts s1 = [Alert "Não foi possível gerar o áudio agora."]
  /\ audioContextRef s1 = Some (mkContext 24000 false)
  /\ alerts s2 = [Alert "Não foi possível gerar o áudio agora."]
  /\ audioContextRef s2 = None.
Proof.
  destruct (playback_failure_shows_notice (Normal (Some "AA==")) reading_sample sample)
    as (_ & Halerts1 & _ & _ & _ & Hcontext1 & _);
    [reflexivity | reflexivity
    | split; [reflexivity | exists RangeError; vm_compute; reflexivity] |].
  destruct (playback_failure_shows_notice (Throw GeneratorError) reading_sample sample)
    as (_ & Halerts2 & _ & _ & _ & Hcontext2 & _);
    [reflexivity | reflexivity | exact I |].
  split; [exact Halerts1|]. split; [exact Hcontext1|].
  split; [exact Halerts2 | exact Hcontext2].
Defined.

(** Whatever the generator does and whatever state the handler is
    called in, [handlePlayAudio] raises nothing, calls the generator at
    most once, and touches neither the record on screen, the view, the
    note being written nor the storage; with a record on screen it ends
    with the loading flag down. *)
Theorem handlePlayAudio_safe (response : completion (option string)) (s : State) :
  let s' := exec (handlePlayAudio response) s in
  outcome (handlePlayAudio response) s = Normal tt
  /\ content s' = content s /\ view s' = view s /\ userNote s' = userNote s
  /\ currentTopic s' = currentTopic s /\ isLoading s' = isLoading s
  /\ localStorage s' = localStorage s
  /\ isAudioLoading s' = (if content s is Some _ then false else isAudioLoading s)
  /\ (generator_calls s' <= S (generator_calls s))%nat.
Proof.
  intros s'. subst s'. unfold exec, outcome.
  destruct (content s) as [c|] eqn:Hc.
  2: { rewrite handlePlayAudio_without_content by done.
       cbn [fst snd]. rewrite Hc. repeat split; lia. }
  destruct (isPlaying s) eqn:Hp.
  { rewrite (handlePlayAudio_toggle _ _ _ Hc Hp), stopAudio_run.
    cbn [fst snd stopped content view userNote currentTopic isLoading localStorage
         isAudioLoading].
    do 8 (split; [done|]).
    unfold generator_calls. cbn [trace stopped].
    rewrite !filter_app, release_events_no_calls, !length_app.
    rewrite !filter_calls_cons_other by reflexivity. rewrite filter_nil. cbn [length]. lia. }
  open_state s.
  destruct response as [data|e]; [destruct (truthy data) eqn:Hd|].
  2,3: run_hyps; repeat split; count_calls.
  destruct (ByteCodec.base64ToUint8Array (default EmptyString data)) as [bytes|e] eqn:Hb;
    [destruct (ByteCodec.decodeAudioData bytes 24000 1) as [buf|e] eqn:Hdec|].
  all: run_hyps; repeat split; count_calls.
Qed.

(** The three ways out of a session release it: the natural end of the
    clip, the back button of the reading view, and the unmounting of the
    component each stop and disconnect the source they find, close the
    context they find, and leave both refs empty and the playing flag
    down. *)
Theorem every_exit_releases_session (s : State) (sh : Shell.Shell) :
  (let s' := exec source_onended s in
   audioSourceRef s' = None /\ audioContextRef s' = None /\ isPlaying s' = false
   /\ trace s' = trace s ++ [SetIsPlaying false] ++ release_events s
                 ++ [SetIsPlaying false; SetIsAudioLoading false])
  /\ (let s' := exec Shell.leave_reading s in
      audioSourceRef s' = None /\ audioContextRef s' = None /\ isPlaying s' = false
      /\ view s' = home
      /\ trace s' = trace s ++ release_events s
                    ++ [SetIsPlaying false; SetIsAudioLoading false; SetView home])
  /\ (let sh' := Shell.unmount sh in
      audioSourceRef (Shell.app sh') = None /\ audioContextRef (Shell.app sh') = None
      /\ isPlaying (Shell.app sh') = false
      /\ Shell.installListener sh' = false
      /\ trace (Shell.app sh') = trace (Shell.app sh) ++ release_events (Shell.app sh)
                                 ++ [SetIsPlaying false; SetIsAudioLoading false]).
Proof.
  split; [|split].
  - unfold exec, source_onended.
    erewrite bind_run by (unfold setIsPlaying, modify; reflexivity).
    rewrite stopAudio_run. open_state s. cbn. rewrite <- !app_assoc. done.
  - unfold exec, Shell.leave_reading.
    rewrite (bind_run _ _ _ _ _ (stopAudio_run s)).
    open_state s. cbn. rewrite <- !app_assoc. done.
  - unfold Shell.unmount, Shell.with_app, exec. rewrite stopAudio_run. done.
Qed.

(** ** The diary, the mount effect, notifications, the install banner *)

Import Shell.

(** Splits the component into its fields. *)
Ltac open_shell sh :=
  let a := fresh "a" in
  destruct sh as [a ?notes ?enabled ?prompt ?banner ?listener ?eff];
  cbn [app savedNotes notificationsEnabled deferredPrompt showInstallBanner
       installListener effects] in *;
  open_state a.

(** Unfolds the handlers of this part and computes what it can. *)
Ltac run_shell :=
  cbv [saveNote deleteNote mount unmount checkDailyNotification
       handleBeforeInstallPrompt window_beforeinstallprompt handleInstallClick
       dismissInstallBanner requestNotificationPermission handleShare
       storage_get storage_set alert perform with_app fresh initial
       setSavedNotes setNotificationsEnabled setDeferredPrompt setShowInstallBanner
       set_installListener notes_persisted morning_write_due
       app savedNotes notificationsEnabled deferredPrompt showInstallBanner
       installListener effects
       Notification_in_window Notification_permission now_hours now_todayStr
       storage_accepts now_for_id note_today now_for_timestamp note_accepted
       navigator_share share_resolves location_href userChoice];
  run_m.

Section Diary.
Context `{NotesCodec}.

(** The diary survives a reload.  When the text stored under the diary
    key is the list on screen, as it is after a save or a confirmed
    delete whose write was accepted, and the codec reads that list back,
    a component mounted later over the same storage, on a browser that
    has [Notification] and accepts the write of the morning check,
    completes its mount effect and starts with exactly the notes that
    were on screen. *)
Theorem diary_survives_reload (sh : Shell) (p : Platform) :
  notes_persisted sh ->
  notes_stringify (savedNotes sh) <> EmptyString ->
  notes_parse (notes_stringify (savedNotes sh)) = Some (savedNotes sh) ->
  Notification_in_window p = true ->
  storage_accepts p = true ->
  let reloaded := mount p (fresh (localStorage (app sh))) in
  reloaded.1 = Done /\ savedNotes reloaded.2 = savedNotes sh.
Proof.
  intros Hpersisted Hne%truthy_Some_true Hround Hwindow Haccepts reloaded. subst reloaded.
  unfold notes_persisted, storage_get in Hpersisted.
  open_shell sh. destruct p as [w perm hours today acc].
  cbn [Notification_in_window storage_accepts] in *.
  subst. run_shell. rewrite Hpersisted. run_hyps.
  destruct perm; run_shell; [|done..].
  by repeat (split_stuck; run_shell).
Qed.

(** [saveNote] does nothing without a record on screen.  With one, it
    puts at the head of the diary on screen a note holding that record,
    the heading and the text being written, keeps the notes that were
    there, and leaves the record, the view and the text being written
    untouched.  When the browser accepts the write, the new list is
    stored under the diary key and the notice is shown.  When it refuses,
    the handler ends there with [QuotaExceededError]: nothing is stored,
    no notice is shown, and the note on screen is not on disk. *)
Theorem saveNote_prepends_and_persists (env : NoteEnv) (sh : Shell) :
  let saved := saveNote env sh in
  match content (app sh) with
  | None => saved = (Done, sh)
  | Some c =>
      savedNotes saved.2
      = mkNote (pretty (now_for_id env)) (note_today env) (currentTopic (app sh)) c
          (userNote (app sh)) (now_for_timestamp env) :: savedNotes sh
      /\ content (app saved.2) = Some c /\ view (app saved.2) = view (app sh)
      /\ userNote (app saved.2) = userNote (app sh)
      /\ if note_accepted env then
           saved.1 = Done
           /\ notes_persisted saved.2
           /\ alerts (app saved.2)
              = alerts (app sh) ++ [Alert "Anotação salva no seu diário!"]
         else
           saved.1 = Failed (Raised QuotaExceededError)
           /\ app saved.2 = app sh
  end.
Proof.
  intros saved. subst saved. open_shell sh. destruct env as [i d ts [|]].
  all: destruct c as [c|]; run_shell; [|done].
  - do 4 (split; [reflexivity|]). split; [reflexivity|].
    split; [apply lookup_insert_eq|].
    unfold alerts. cbn [trace]. rewrite filter_app. f_equal.
  - repeat split.
Qed.

(** [deleteNote] asks for confirmation first.  When the user declines,
    nothing changes.  When the user confirms, every note carrying the id
    is removed from the diary on screen and every other note stays, in
    the order it had; the new list is stored under the diary key when the
    browser accepts the write, and when it refuses the handler ends with
    [QuotaExceededError] and the stored text is the old one. *)
Theorem deleteNote_removes_by_id (id : string) (confirmed accepted : bool) (sh : Shell) :
  let deleted := deleteNote id confirmed accepted sh in
  effects deleted.2 = effects sh ++ [Confirm "Deseja apagar esta anotação?"]
  /\ if confirmed then
       savedNotes deleted.2 = filter (fun n => note_id n <> id) (savedNotes sh)
       /\ (forall n, n ∈ savedNotes deleted.2 <-> n ∈ savedNotes sh /\ note_id n <> id)
       /\ if accepted then deleted.1 = Done /\ notes_persisted deleted.2
          else deleted.1 = Failed (Raised QuotaExceededError)
               /\ app deleted.2 = app sh
     else
       deleted.1 = Done /\ savedNotes deleted.2 = savedNotes sh /\ app deleted.2 = app sh.
Proof.
  intros deleted. subst deleted. open_shell sh.
  destruct confirmed; [destruct accepted|]; run_shell.
  3: done.
  all: split; [reflexivity|]. all: split; [reflexivity|].
  all: split; [intros n; rewrite list_elem_of_filter; tauto|].
  - split; [reflexivity | apply lookup_insert_eq].
  - done.
Qed.

(** Saving a note and deleting it again gives back the diary on screen
    as it was, provided no older note has the id of the new one; ids are
    the clock reading in milliseconds, so this holds for notes saved at
    different milliseconds.  It holds whether or not the browser accepts
    the two writes. *)
Theorem save_then_delete (env : NoteEnv) (accepted : bool) (sh : Shell)
    (c : DevotionalContent) :
  content (app sh) = Some c ->
  Forall (fun n => note_id n <> pretty (now_for_id env)) (savedNotes sh) ->
  savedNotes (deleteNote (pretty (now_for_id env)) true accepted (saveNote env sh).2).2
  = savedNotes sh.
Proof.
  intros Hc Hfresh. open_shell sh. destruct env as [i d ts [|]], accepted; run_shell.
  all: cbn [now_for_id] in Hfresh.
  all: rewrite filter_cons, decide_False by (cbn [note_id]; intros Hn; by apply Hn).
  all: revert Hfresh; generalize (pretty i); intros id Hfresh.
  all: induction Hfresh as [|n rest Hn Hrest IH]; [done|].
  all: by rewrite filter_cons, decide_True, IH.
Qed.

(** The mount effect completes exactly when the stored diary, if there
    is one, parses, the browser has the [Notification] interface, and
    the morning check either does not come to its write or has it
    accepted; it registers the listener of the install event exactly when
    it completes.  A stored diary that does not parse raises
    [SyntaxError], a browser without [Notification] raises
    [ReferenceError], and a refused write of the morning check raises
    [QuotaExceededError]; in each case the effect stops there, so a later
    install event is ignored. *)
Theorem mount_outcome (p : Platform) (storage : gmap string string)
    (e : InstallPromptEvent) :
  let stored := storage !! notes_key in
  let mounted := mount p (fresh storage) in
  let after_notes :=
    if Notification_in_window p then
      if morning_write_due p storage && negb (storage_accepts p)
      then Failed (Raised QuotaExceededError)
      else Done
    else Failed ReferenceError in
  mounted.1
  = (if truthy stored then
       match notes_parse (default EmptyString stored) with
       | Some _ => after_notes
       | None => Failed (Raised SyntaxError)
       end
     else after_notes)
  /\ installListener mounted.2 = (if mounted.1 is Done then true else false)
  /\ window_beforeinstallprompt e mounted.2
     = (if mounted.1 is Done then handleBeforeInstallPrompt e mounted.2 else mounted.2)
  /\ match mounted.1 with
     | Done =>
         savedNotes mounted.2
         = (if truthy stored then default [] (notes_parse (default EmptyString stored))
            else [])
         /\ notificationsEnabled mounted.2
            = (if Notification_permission p is granted then true else false)
     | Failed _ => True
     end.
Proof.
  intros stored mounted after_notes. subst stored mounted after_notes.
  destruct p as [w perm hours today acc]. run_shell.
  destruct (truthy (storage !! notes_key)) eqn:Ht;
    [destruct (notes_parse (default EmptyString (storage !! notes_key))) as [notes|] eqn:Hn|].
  all: destruct w; cbn [negb fst snd andb].
  all: try (repeat split; done).
  all: destruct perm; try (repeat split; done).
  all: destruct acc.
  all: repeat (split_stuck; cbn [fst snd negb andb]); repeat split; done.
Qed.



(** The mount effect neither shows the banner nor touches what was
    stored about it. *)
Lemma mount_keeps_banner (p : Platform) (sh : Shell) :
  storage_get banner_key (mount p sh).2 = storage_get banner_key sh
  /\ showInstallBanner (mount p sh).2 = showInstallBanner sh.
Proof.
  unfold mount.
  destruct (truthy (storage_get notes_key sh));
    [destruct (notes_parse (default EmptyString (storage_get notes_key sh)))|].
  all: destruct (Notification_in_window p); cbn [negb snd]; try done.
  all: destruct (Notification_permission p); try done.
  all: unfold checkDailyNotification.
  all: match goal with |- context [if ?b then _ else _] => destruct b end; try done.
  all: destruct (storage_accepts p).
  all: open_shell sh; run_shell.
  all: by rewrite ?lookup_insert_ne by discriminate.
Qed.

(** [dismissInstallBanner] hides the banner.  When the browser accepts
    the write of the flag, the banner stays hidden: at a later install
    event, and at an install event after a reload of the page over the
    same storage, whatever the mount effect does; the event itself is
    still kept for the install button.  When the browser refuses the
    write, the handler ends with [QuotaExceededError] and the storage is
    what it was, so nothing keeps the banner from coming back. *)
Theorem dismissed_banner_stays_hidden (accepted : bool) (sh : Shell)
    (e : InstallPromptEvent) (p : Platform) :
  let dismissed := dismissInstallBanner accepted sh in
  let reloaded := (mount p (fresh (localStorage (app dismissed.2)))).2 in
  showInstallBanner dismissed.2 = false
  /\ if accepted then
       dismissed.1 = Done
       /\ showInstallBanner (handleBeforeInstallPrompt e dismissed.2) = false
       /\ deferredPrompt (handleBeforeInstallPrompt e dismissed.2) = Some e
       /\ showInstallBanner (window_beforeinstallprompt e reloaded) = false
     else
       dismissed.1 = Failed (Raised QuotaExceededError)
       /\ app dismissed.2 = app sh.
Proof.
  intros dismissed reloaded.
  destruct accepted; [|subst dismissed; open_shell sh; run_shell; done].
  assert (dismissed.1 = Done /\ showInstallBanner dismissed.2 = false
          /\ storage_get banner_key dismissed.2 = Some "true") as (Hdone & Hhidden & Hstored).
  { subst dismissed. open_shell sh. run_shell. repeat split. apply lookup_insert_eq. }
  assert (forall sh0, storage_get banner_key sh0 = Some "true" ->
            showInstallBanner (handleBeforeInstallPrompt e sh0) = showInstallBanner sh0
            /\ deferredPrompt (handleBeforeInstallPrompt e sh0) = Some e) as Hevent.
  { intros sh0 Hsh0. unfold handleBeforeInstallPrompt.
    replace (storage_get banner_key (setDeferredPrompt (Some e) (perform PreventDefault sh0)))
      with (Some "true") by (rewrite <- Hsh0; by destruct sh0).
    done. }
  split; [done|]. split; [done|].
  destruct (Hevent dismissed.2 Hstored) as [-> ->]. do 2 (split; [done|]).
  destruct (mount_keeps_banner p (fresh (localStorage (app dismissed.2)))) as [Hkey Hbanner].
  fold reloaded in Hkey, Hbanner.
  unfold window_beforeinstallprompt. destruct (installListener reloaded).
  - destruct (Hevent reloaded) as [-> _]; [by rewrite Hkey|]. by rewrite Hbanner.
  - by rewrite Hbanner.
Qed.

End Diary.

(** Asking for the permission stores nothing and touches neither the
    diary nor the record.  On a browser without the [Notification]
    interface the handler, unlike the mount effect, does not raise: it
    shows a notice and stops.  Otherwise notifications are switched on,
    and confirmed by one notification, exactly when the user grants the
    permission. *)
Theorem permission_request_guarded (p : Platform) (answer : Permission) (sh : Shell) :
  let sh' := requestNotificationPermission p answer sh in
  localStorage (app sh') = localStorage (app sh)
  /\ savedNotes sh' = savedNotes sh
  /\ content (app sh') = content (app sh)
  /\ if Notification_in_window p then
       app sh' = app sh
       /\ match answer with
          | granted =>
              notificationsEnabled sh' = true /\ notifications sh' = S (notifications sh)
          | _ => sh' = sh
          end
     else
       notificationsEnabled sh' = notificationsEnabled sh
       /\ effects sh' = effects sh
       /\ alerts (app sh')
          = alerts (app sh) ++ [Alert "Este navegador não suporta notificações."].
Proof.
  intros sh'. subst sh'. open_shell sh. destruct p as [[|] perm hours today acc].
  - destruct answer; run_shell; repeat split.
    unfold notifications. cbn [effects]. rewrite filter_app, length_app.
    rewrite filter_cons, decide_True by reflexivity. cbn [filter length]. 
    rewrite filter_nil. cbn [length]. lia.
  - run_shell. repeat split. unfold alerts. cbn [trace]. rewrite filter_app. f_equal.
Qed.

(** The install prompt is used at most once.  A click without a kept
    event does nothing; a click with one shows the prompt and drops the
    event whatever the user answers, so a second click does nothing.  The
    banner is hidden only when the user accepts: after a refusal it is
    still shown, and its button no longer does anything. *)
Theorem install_prompt_used_once (sh : Shell) :
  let sh' := handleInstallClick sh in
  deferredPrompt sh' = None
  /\ handleInstallClick sh' = sh'
  /\ effects sh' = effects sh ++ (if deferredPrompt sh is Some _ then [Prompt] else [])
  /\ showInstallBanner sh'
     = match deferredPrompt sh with
       | Some (mkPromptEvent accepted) => false
       | _ => showInstallBanner sh
       end.
Proof.
  intros sh'. subst sh'.
  destruct sh as [a notes enabled [[[|]]|] banner listener eff]; cbn.
  all: rewrite ?app_nil_r; done.
Qed.

(** Sharing never changes what the component holds: the record, the
    diary, the storage and the flags are what they were.  Without a
    record nothing happens at all; with one, the same text goes to the
    share sheet or, where there is none, to the clipboard, and a share
    that fails or is cancelled is only logged. *)
Theorem handleShare_changes_nothing (env : ShareEnv) (sh : Shell) :
  let sh' := handleShare env sh in
  savedNotes sh' = savedNotes sh
  /\ content (app sh') = content (app sh)
  /\ localStorage (app sh') = localStorage (app sh)
  /\ view (app sh') = view (app sh)
  /\ match content (app sh) with
     | None => sh' = sh
     | Some c =>
         if navigator_share env then
           app sh' = app sh
           /\ effects sh'
              = effects sh ++ Share "Meu Terapeuta: DEUS" (shareText c) (location_href env)
                  :: (if share_resolves env then [] else [ConsoleLog "Error sharing:"])
         else
           effects sh' = effects sh ++ [ClipboardWrite (shareText c)]
           /\ alerts (app sh')
              = alerts (app sh) ++ [Alert "Devocional copiado para a área de transferência!"]
     end.
Proof.
  intros sh'. subst sh'. open_shell sh. destruct env as [[|] [|] href].
  all: destruct c as [c|]; run_shell; repeat split.
  all: rewrite <- ?app_assoc; try reflexivity.
  all: unfold alerts; cbn [trace]; rewrite filter_app; f_equal.
Qed.

Lemma diary_survives_reload_witness :
  let sh := (saveNote (H := reference_notes_codec) second_save
               (saveNote (H := reference_notes_codec) first_save writing).2).2 in
  let reloaded := mount (H := reference_notes_codec) morning (fresh (localStorage (app sh))) in
  reloaded.1 = Done
  /\ note_id <$> savedNotes reloaded.2 = ["1709290860000"; "1709290800000"].
Proof.
  intros sh reloaded. subst reloaded.
  destruct (diary_survives_reload (H := reference_notes_codec) sh morning)
    as [Hdone Hnotes];
    [vm_compute; reflexivity | discriminate | vm_compute; reflexivity | reflexivity
    | reflexivity |].
  split; [exact Hdone|]. rewrite Hnotes. vm_compute. reflexivity.
Defined.

Lemma save_then_delete_witness :
  let sh := (saveNote (H := reference_notes_codec) first_save writing).2 in
  savedNotes (deleteNote (H := reference_notes_codec) "1709290860000" true false
                (saveNote (H := reference_notes_codec) refused_save sh).2).2
  = savedNotes sh.
Proof.
  intros sh.
  apply (save_then_delete (H := reference_notes_codec) refused_save false sh sample).
  - reflexivity.
  - repeat constructor. vm_compute. discriminate.
Defined.


(** ** The service worker, beyond stale-while-revalidate *)

Section Offline.

Lemma precache_urls :
  "/" ∈ PRECACHE_URLS /\ "/index.html" ∈ PRECACHE_URLS /\ "/index.tsx" ∈ PRECACHE_URLS.
Proof. unfold PRECACHE_URLS. set_solver. Qed.




(** [addAll] is all or nothing: when one of the three URLs fails or
    arrives with a status that is not ok, the install fails and no entry
    of any generation changes, not even for the URLs that did arrive. *)
Theorem install_all_or_nothing (network : string -> completion Response)
    (caches : CacheStorage) (u : string) :
  u ∈ PRECACHE_URLS ->
  match network u with
  | Normal r => response_ok r = false
  | Throw _ => True
  end ->
  (on_install network caches).1 = Throw NetworkError
  /\ forall name k,
       cache_match name k (on_install network caches).2 = cache_match name k caches.
Proof.
  intros Hu Hbad. unfold on_install.
  cbn [PRECACHE_URLS fmap list_fmap forallb fst snd foldl].
  match goal with |- context [if ?b then _ else _] => assert (b = false) as -> end.
  { unfold PRECACHE_URLS in Hu.
    apply elem_of_cons in Hu as [->|Hu];
      [|apply elem_of_cons in Hu as [->|Hu]; [|apply list_elem_of_singleton in Hu as ->]].
    all: destruct (network "/") as [r1|]; [|done].
    all: destruct (network "/index.html") as [r2|]; [|by rewrite ?andb_false_r].
    all: destruct (network "/index.tsx") as [r3|]; [|by rewrite ?andb_false_r].
    all: rewrite Hbad; by rewrite ?andb_false_r. }
  split; [done|]. intros name k. apply cache_match_open.
Qed.





(** Requests to the other origins are served cache first: an entry in
    any generation, the oldest generation first, is the answer and the
    network is not asked; without an entry the answer is whatever the
    network gives, and it is not stored, so the storage is the same after
    the request as before. *)
Theorem local_requests_cache_first (request : Request) (network : completion Response)
    (caches : CacheStorage) :
  is_external (request_origin request) = false ->
  let out := on_fetch request network caches in
  caches_after out = caches
  /\ match caches_match (request_url request) caches with
     | Some r =>
         responded out = Normal r /\ fetches_issued out = 0%nat
         /\ awaited_network out = false
     | None =>
         responded out = network /\ fetches_issued out = 1%nat
         /\ awaited_network out = true
     end.
Proof.
  intros Hlocal out. subst out. unfold on_fetch. rewrite Hlocal.
  by destruct (caches_match (request_url request) caches).
Qed.

(** Stale-while-revalidate is stale by exactly one request: after a
    request whose network answer arrived and was accepted by [cache.put]
    (any status but 206), the next request for the same URL is answered
    at once with that answer, whatever the network does then. *)
Theorem revalidated_entry_served_next (request : Request) (first : Response)
    (second : completion Response) (caches : CacheStorage) :
  is_external (request_origin request) = true ->
  put_accepts first = true ->
  let out1 := on_fetch request (Normal first) caches in
  let out2 := on_fetch request second (caches_after out1) in
  responded out2 = Normal first /\ awaited_network out2 = false.
Proof.
  intros Hext Hput out1 out2. subst out1 out2.
  assert (cache_match CACHE_NAME (request_url request)
            (caches_after (on_fetch request (Normal first) caches)) = Some first) as Hstored.
  { unfold on_fetch. rewrite Hext, Hput.
    destruct (cache_match CACHE_NAME (request_url request) (caches_open CACHE_NAME caches));
      cbn [caches_after]; apply cache_match_put_eq, caches_lookup_open. }
  revert Hstored. generalize (caches_after (on_fetch request (Normal first) caches)).
  intros stored Hstored. unfold on_fetch. rewrite Hext, cache_match_open, Hstored. done.
Qed.

End Offline.

(** *** The allow-list is a substring test *)

Lemma prefix_app (sub s : string) :
  String.prefix sub s = true <-> exists post, s = String.append sub post.
Proof.
  revert sub. induction s as [|b s IH]; intros [|a sub]; cbn [String.prefix].
  - split; [intros _; by exists EmptyString | reflexivity].
  - split; [discriminate | intros [post Hp]; discriminate].
  - split; [intros _; by exists (String b s) | reflexivity].
  - destruct (Ascii.ascii_dec a b) as [->|Hne].
    + rewrite IH. split; intros [post Hp]; exists post.
      * by rewrite append_cons, <- Hp.
      * rewrite append_cons in Hp. congruence.
    + split; [discriminate|]. intros [post Hp]. rewrite append_cons in Hp. congruence.
Qed.

Lemma includes_substring (s sub : string) :
  includes s sub = true
  <-> exists pre post, s = String.append pre (String.append sub post).
Proof.
  induction s as [|a s IH]; cbn [includes].
  - destruct (String.prefix sub EmptyString) eqn:Hp.
    + split; [|done]. intros _. apply prefix_app in Hp as [post Hp].
      by exists EmptyString, post.
    + split; [done|]. intros (pre & post & Hs). destruct pre; [|discriminate].
      rewrite append_nil in Hs. assert (String.prefix sub EmptyString = true) as Hq
        by (apply prefix_app; by exists post). congruence.
  - destruct (String.prefix sub (String a s)) eqn:Hp.
    + split; [|done]. intros _. apply prefix_app in Hp as [post Hp].
      by exists EmptyString, post.
    + rewrite IH. split.
      * intros (pre & post & ->). by exists (String a pre), post.
      * intros (pre & post & Hs). destruct pre as [|b pre].
        -- rewrite append_nil in Hs.
           assert (String.prefix sub (String a s) = true) as Hq
             by (apply prefix_app; by exists post). congruence.
        -- rewrite append_cons in Hs. injection Hs as _ ->. by exists pre, post.
Qed.

(** A request is served stale-while-revalidate exactly when its origin
    contains one of the four host names somewhere: the test looks for a
    substring, not for the host, so an origin that merely contains
    [esm.sh] in a longer name passes it as well. *)
Theorem is_external_iff_substring (origin : string) :
  is_external origin = true
  <-> exists host pre post,
        host ∈ ["esm.sh"; "cdn.tailwindcss.com"; "fonts.googleapis.com"; "fonts.gstatic.com"]
        /\ origin = String.append pre (String.append host post).
Proof.
  unfold is_external. rewrite !orb_true_iff, !includes_substring. split.
  - intros [[[(pre & post & ->)|(pre & post & ->)]|(pre & post & ->)]|(pre & post & ->)];
      eexists _, pre, post; (split; [|reflexivity]); set_solver.
  - intros (host & pre & post & Hhost & ->).
    repeat (apply elem_of_cons in Hhost as [->|Hhost]); [eauto 10..|].
    by apply elem_of_nil in Hhost.
Qed.


Lemma install_all_or_nothing_witness :
  (on_install network_without_script two_generations).1 = Throw NetworkError
  /\ cache_match CACHE_NAME "/index.html"
       (on_install network_without_script two_generations).2 = None.
Proof.
  destruct (install_all_or_nothing network_without_script two_generations "/index.tsx")
    as [Hfailed Hkept]; [apply precache_urls | reflexivity |].
  split; [exact Hfailed|]. rewrite Hkept. reflexivity.
Defined.


Lemma local_requests_cache_first_witness :
  let request := mkRequest "/" "https://devocional.example" in
  responded (on_fetch request (Normal new_response) two_generations) = Normal old_response
  /\ fetches_issued (on_fetch request (Normal new_response) two_generations) = 0%nat
  /\ responded (on_fetch page_request (Throw NetworkError) two_generations)
     = Throw NetworkError
  /\ caches_after (on_fetch page_request (Normal new_response) two_generations)
     = two_generations.
Proof.
  intros request. subst request.
  destruct (local_requests_cache_first (mkRequest "/" "https://devocional.example")
              (Normal new_response) two_generations eq_refl) as (_ & Hhit & Hnone & _).
  destruct (local_requests_cache_first page_request (Throw NetworkError) two_generations
              eq_refl) as (_ & Hmiss & _).
  destruct (local_requests_cache_first page_request (Normal new_response) two_generations
              eq_refl) as (Hsame & _).
  split; [exact Hhit|]. split; [exact Hnone|]. split; [exact Hmiss | exact Hsame].
Defined.

Lemma revalidated_entry_served_next_witness :
  let out1 := on_fetch module_request (Normal new_response) two_generations in
  responded out1 = Normal old_response
  /\ responded (on_fetch module_request (Throw NetworkError) (caches_after out1))
     = Normal new_response.
Proof.
  intros out1. subst out1. split; [reflexivity|].
  apply (revalidated_entry_served_next module_request new_response (Throw NetworkError)
           two_generations eq_refl eq_refl).
Defined.

(** An origin that only contains [esm.sh] inside a longer host name is
    on the allow-list. *)
Lemma is_external_iff_substring_witness :
  is_external "https://notesm.shop.example" = true.
Proof.
  apply (is_external_iff_substring "https://notesm.shop.example").
  exists "esm.sh", "https://not", "op.example". split; [|reflexivity].
  constructor.
Defined.

